(** * rive-cpp: SIMD primitives and Mat2D::findMaxScale

    A shallow embedding of [rive/math/simd.hpp], [rive/math/math_types.hpp]
    and of the max-scale extraction of [rive/math/mat2d.hpp].

    C++ [float] is IEEE-754 binary32 (the headers [static_assert] on
    [is_iec559]); it is modelled by [spec_float] at precision 24 and
    maximal exponent 128, with round-to-nearest-even, the default rounding
    mode.  [int32_t] and [uint32_t] lanes are integers with their
    wrap-around written out. *)

From Stdlib Require Import ZArith Bool List Lia Lra Reals.
From Stdlib Require Import Floats.SpecFloat.
Import ListNotations.

Open Scope Z_scope.

(** ** binary32 *)

Module F32.

Definition prec : Z := 24.
Definition emax : Z := 128.

Definition float := spec_float.

Definition add : float -> float -> float := SFadd prec emax.
Definition sub : float -> float -> float := SFsub prec emax.
Definition mul : float -> float -> float := SFmul prec emax.
Definition div : float -> float -> float := SFdiv prec emax.
Definition sqrtf : float -> float := SFsqrt prec emax.
Definition neg : float -> float := SFopp.
Definition fabsf : float -> float := SFabs.

Definition eqb : float -> float -> bool := SFeqb.
Definition ltb : float -> float -> bool := SFltb.
Definition leb : float -> float -> bool := SFleb.

(** A value of the C++ type: a canonical binary32 datum. *)
Definition is_binary32 (x : float) : bool := valid_binary prec emax x.

(** Literals.  An integer literal converts with one rounding; a decimal
    literal [m * 10^-k] is the correctly rounded quotient. *)
Definition of_Z (n : Z) : float := binary_normalize prec emax n 0 false.

Definition of_dec (m : Z) (k : positive) : float :=
  match m with
  | Z0 => S754_zero false
  | Zpos p => SFdiv prec emax (S754_finite false p 0)
                (S754_finite false (Pos.pow 10 k) 0)
  | Zneg p => SFdiv prec emax (S754_finite true p 0)
                (S754_finite false (Pos.pow 10 k) 0)
  end.

Definition zero : float := S754_zero false.
Definition nzero : float := S754_zero true.
Definition one : float := of_Z 1.
Definition two : float := of_Z 2.
Definition four : float := of_Z 4.
Definition half : float := div one two.
Definition quarter : float := div one four.
Definition three : float := of_Z 3.
Definition five : float := of_Z 5.
Definition nan : float := S754_nan.
Definition infinity : float := S754_infinity false.

(** [1e8f] *)
Definition f1e8 : float := of_Z 100000000.

(** [2^64], whose square is [2^128], beyond the largest binary32. *)
Definition two64 : float := of_Z (2 ^ 64).

(** A binary32 datum of magnitude [2^64] or more. *)
Definition huge (x : float) : Prop :=
  is_binary32 x = true /\ leb two64 (fabsf x) = true.

(** A datum that is neither NaN nor of the other sign. *)
Definition has_sign (s : bool) (x : float) : Prop :=
  match x with
  | S754_zero s' | S754_infinity s' | S754_finite s' _ _ => s' = s
  | S754_nan => False
  end.

(** The outcome of an overflow: NaN or the positive infinity. *)
Definition overflowed (x : float) : Prop := x = nan \/ x = infinity.

(** [std::isfinite] *)
Definition isfinite (x : float) : bool :=
  match x with
  | S754_zero _ | S754_finite _ _ _ => true
  | S754_infinity _ | S754_nan => false
  end.

(** [std::isnan] *)
Definition is_nan (x : float) : bool :=
  match x with
  | S754_nan => true
  | _ => false
  end.

(** Identity of two data (sign of zero included), as opposed to [==]. *)
Definition same (x y : float) : bool :=
  match x, y with
  | S754_zero s, S754_zero t => Bool.eqb s t
  | S754_infinity s, S754_infinity t => Bool.eqb s t
  | S754_nan, S754_nan => true
  | S754_finite s m e, S754_finite t n f =>
      Bool.eqb s t && Pos.eqb m n && Z.eqb e f
  | _, _ => false
  end.

(** [f] holds of the [n] mantissas from [m] upwards. *)
Fixpoint holds_from (f : positive -> bool) (n : nat) (m : positive) : bool :=
  match n with
  | O => true
  | S n' => f m && holds_from f n' (Pos.succ m)
  end.

End F32.

(** ** 32-bit integer lanes *)

Module I32.

Definition modulus : Z := 2 ^ 32.
Definition min_signed : Z := - 2 ^ 31.
Definition max_signed : Z := 2 ^ 31 - 1.

(** Reduction of an integer to the [int32_t] range (two's complement). *)
Definition wrap (z : Z) : Z := (z + 2 ^ 31) mod modulus - 2 ^ 31.

(** Reduction of an integer to the [uint32_t] range. *)
Definition uwrap (z : Z) : Z := z mod modulus.

Definition in_range (z : Z) : Prop := min_signed <= z <= max_signed.
Definition in_urange (z : Z) : Prop := 0 <= z < modulus.

End I32.

(** ** rive/math/math_types.hpp *)

Module math.

(** [constexpr float EPSILON = 1.f / (1 << 12)] *)
Definition EPSILON : F32.float := F32.div F32.one (F32.of_Z (Z.shiftl 1 12)).

(** [constexpr float PI = 3.14159265f] *)
Definition PI : F32.float := F32.of_dec 314159265 8.

(** [nearly_zero(a, tolerance)]: [fabsf(a) <= tolerance] *)
Definition nearly_zero (a tolerance : F32.float) : bool :=
  F32.leb (F32.fabsf a) tolerance.

(** [nearly_equal(a, b, tolerance)]: [nearly_zero(b - a, tolerance)] *)
Definition nearly_equal (a b tolerance : F32.float) : bool :=
  nearly_zero (F32.sub b a) tolerance.

(** [ieee_float_divide(a, b)]: [a / b] *)
Definition ieee_float_divide (a b : F32.float) : F32.float := F32.div a b.

End math.

(** [template <typename T> T lerp(const T& a, const T& b, float t)],
    at [T = float]: [a + (b - a) * t]. *)
Definition lerp (a b t : F32.float) : F32.float :=
  F32.add a (F32.mul (F32.sub b a) t).

(** ** rive/math/simd.hpp *)

(** The element types the header instantiates [gvec<T, N>] with.  The
    operators of a clang vector type act on each lane; a comparison yields
    a lane of [int32_t], [~0] for true and [0] for false. *)
Class Lane (T : Type) : Type := {
  lane_is_floating_point : bool;
  lane_of_int : Z -> T;
  lane_eq : T -> T -> bool;
  lane_lt : T -> T -> bool;
  lane_le : T -> T -> bool;
  lane_neg : T -> T;
  lane_add : T -> T -> T;
  lane_sub : T -> T -> T;
  lane_mul : T -> T -> T
}.

(** [float] lanes. *)
#[export] Instance Lane_float : Lane F32.float := {
  lane_is_floating_point := true;
  lane_of_int := F32.of_Z;
  lane_eq := F32.eqb;
  lane_lt := F32.ltb;
  lane_le := F32.leb;
  lane_neg := F32.neg;
  lane_add := F32.add;
  lane_sub := F32.sub;
  lane_mul := F32.mul
}.

(** [int32_t] lanes: a lane is an integer of the signed range, vector
    arithmetic wraps modulo 2^32. *)
Record int32_t : Type := Int32 { int32_val : Z }.

#[export] Instance Lane_int32 : Lane int32_t := {
  lane_is_floating_point := false;
  lane_of_int z := Int32 (I32.wrap z);
  lane_eq x y := Z.eqb (int32_val x) (int32_val y);
  lane_lt x y := Z.ltb (int32_val x) (int32_val y);
  lane_le x y := Z.leb (int32_val x) (int32_val y);
  lane_neg x := Int32 (I32.wrap (- int32_val x));
  lane_add x y := Int32 (I32.wrap (int32_val x + int32_val y));
  lane_sub x y := Int32 (I32.wrap (int32_val x - int32_val y));
  lane_mul x y := Int32 (I32.wrap (int32_val x * int32_val y))
}.

(** [uint32_t] lanes. *)
Record uint32_t : Type := UInt32 { uint32_val : Z }.

#[export] Instance Lane_uint32 : Lane uint32_t := {
  lane_is_floating_point := false;
  lane_of_int z := UInt32 (I32.uwrap z);
  lane_eq x y := Z.eqb (uint32_val x) (uint32_val y);
  lane_lt x y := Z.ltb (uint32_val x) (uint32_val y);
  lane_le x y := Z.leb (uint32_val x) (uint32_val y);
  lane_neg x := UInt32 (I32.uwrap (- uint32_val x));
  lane_add x y := UInt32 (I32.uwrap (uint32_val x + uint32_val y));
  lane_sub x y := UInt32 (I32.uwrap (uint32_val x - uint32_val y));
  lane_mul x y := UInt32 (I32.uwrap (uint32_val x * uint32_val y))
}.

Module simd.

(** [gvec<T, N>]: the [N] lanes in order; [N] is the length. *)
Definition gvec (T : Type) : Type := list T.

(** Lane-wise application of a binary and of a ternary operation to
    vectors of one width. *)
Definition zip2 {A B C : Type} (f : A -> B -> C) (a : gvec A) (b : gvec B)
  : gvec C :=
  map (fun p => f (fst p) (snd p)) (combine a b).

Definition zip3 {A B C D : Type} (f : A -> B -> C -> D)
  (a : gvec A) (b : gvec B) (c : gvec C) : gvec D :=
  map (fun p => f (fst (fst p)) (snd (fst p)) (snd p))
      (combine (combine a b) c).

(** A scalar operand of a vector operator is converted to a vector of the
    other operand's width. *)
Definition splat {A B : Type} (like : gvec A) (s : B) : gvec B :=
  map (fun _ => s) like.

(** *** Boolean logic *)

Definition TRUE : int32_t := Int32 (-1).
Definition FALSE : int32_t := Int32 0.

Definition of_bool (b : bool) : int32_t := if b then TRUE else FALSE.

(** Truth of one [int32_t] in a C++ condition. *)
Definition truthy (x : int32_t) : bool := negb (Z.eqb (int32_val x) 0).

Section Operators.
Context {T : Type} `{Lane T}.

Definition vec_eq (a b : gvec T) : gvec int32_t :=
  zip2 (fun x y => of_bool (lane_eq x y)) a b.
Definition vec_lt (a b : gvec T) : gvec int32_t :=
  zip2 (fun x y => of_bool (lane_lt x y)) a b.
Definition vec_le (a b : gvec T) : gvec int32_t :=
  zip2 (fun x y => of_bool (lane_le x y)) a b.
Definition vec_neg (a : gvec T) : gvec T := map lane_neg a.
Definition vec_add (a b : gvec T) : gvec T := zip2 lane_add a b.
Definition vec_sub (a b : gvec T) : gvec T := zip2 lane_sub a b.
Definition vec_mul (a b : gvec T) : gvec T := zip2 lane_mul a b.
End Operators.

(** [!x], [x || y], [x && y] and [~x] on vector booleans. *)
Definition vec_not (x : gvec int32_t) : gvec int32_t :=
  map (fun v => of_bool (negb (truthy v))) x.
Definition vec_or (x y : gvec int32_t) : gvec int32_t :=
  zip2 (fun u v => of_bool (truthy u || truthy v)) x y.
Definition vec_and (x y : gvec int32_t) : gvec int32_t :=
  zip2 (fun u v => of_bool (truthy u && truthy v)) x y.
Definition vec_compl (x : gvec int32_t) : gvec int32_t :=
  map (fun v => Int32 (Z.lnot (int32_val v))) x.

(** [any], the portable path: [if (x[i]) return true; ... return false]. *)
Fixpoint any (x : gvec int32_t) : bool :=
  match x with
  | [] => false
  | v :: x' => if truthy v then true else any x'
  end.

(** [all], the portable path: [!any(~x)] *)
Definition all (x : gvec int32_t) : bool := negb (any (vec_compl x)).

(** [any], the path of the builtin: [return __builtin_reduce_or(x)], the
    bitwise OR of the lanes converted to [bool]. *)
Definition reduce_or (x : gvec int32_t) : int32_t :=
  Int32 (fold_right (fun v acc => Z.lor (int32_val v) acc) 0 x).
Definition any_builtin (x : gvec int32_t) : bool := truthy (reduce_or x).

(** [all], the path of the builtin: [return __builtin_reduce_and(x)], the
    bitwise AND of the lanes converted to [bool]. *)
Definition reduce_and (x : gvec int32_t) : int32_t :=
  Int32 (fold_right (fun v acc => Z.land (int32_val v) acc) (-1) x).
Definition all_builtin (x : gvec int32_t) : bool := truthy (reduce_and x).

Section Generic.
Context {T : Type} `{Lane T}.

(** [isnan]: [!(x == x)] for a floating-point [T], [{}] for an integral
    one. *)
Definition isnan (x : gvec T) : gvec int32_t :=
  if lane_is_floating_point then vec_not (vec_eq x x)
  else splat x FALSE.

(** [if_then_else], the portable path:
    [ret[i] = _if[i] ? _then[i] : _else[i]] *)
Definition if_then_else (_if : gvec int32_t) (_then _else : gvec T)
  : gvec T :=
  zip3 (fun c t e => if truthy c then t else e) _if _then _else.

(** [min], the portable path: [if_then_else(b < a || isnan(a), b, a)] *)
Definition min (a b : gvec T) : gvec T :=
  if_then_else (vec_or (vec_lt b a) (isnan a)) b a.

(** [max], the portable path: [if_then_else(a < b || isnan(a), b, a)] *)
Definition max (a b : gvec T) : gvec T :=
  if_then_else (vec_or (vec_lt a b) (isnan a)) b a.

(** [clamp]: [min(max(lo, x), hi)] *)
Definition clamp (x lo hi : gvec T) : gvec T := min (max lo x) hi.

(** [abs], the portable path: [if_then_else(x < 0, -x, x)] *)
Definition abs (x : gvec T) : gvec T :=
  if_then_else (vec_lt x (splat x (lane_of_int 0))) (vec_neg x) x.
End Generic.

(** The condition of the [assert] of [mix]: [0 <= t && t < 1]. *)
Definition mix_assert (t : F32.float) : bool :=
  F32.leb (F32.of_Z 0) t && F32.ltb t (F32.of_Z 1).

(** [mix(a, b, float t)] as a release build runs it ([NDEBUG], the
    [assert] compiled out): [(b - a) * t + a]. *)
Definition mix (a b : gvec F32.float) (t : F32.float) : gvec F32.float :=
  vec_add (vec_mul (vec_sub b a) (splat a t)) a.

(** [mix] with the [assert] live: [None] is the abort. *)
Definition mix_checked (a b : gvec F32.float) (t : F32.float)
  : option (gvec F32.float) :=
  if mix_assert t then Some (mix a b t) else None.

(** [mix(a, b, gvec t)]: the interpolation parameter per lane. *)
Definition mixv (a b t : gvec F32.float) : gvec F32.float :=
  vec_add (vec_mul (vec_sub b a) t) a.

Definition mixv_assert (t : gvec F32.float) : bool :=
  all (vec_and (vec_le (splat t (F32.of_Z 0)) t)
               (vec_lt t (splat t (F32.of_Z 1)))).

(** *** Floating point functions *)

(** [sqrt], the generic path: [x[i] = sqrtf(x[i])]. *)
Definition sqrt (x : gvec F32.float) : gvec F32.float := map F32.sqrtf x.

(** The [/] of two [float] vectors. *)
Definition vec_div (a b : gvec F32.float) : gvec F32.float :=
  zip2 F32.div a b.

(** [#define SIMD_FAST_ACOS_MAX_ERROR 0.0167552f] *)
Definition SIMD_FAST_ACOS_MAX_ERROR : F32.float := F32.of_dec 167552 7.

(** The constants of [fast_acos]: [a = -0.939115566365855f],
    [b = 0.9217841528914573f], [c = -1.2845906244690837f],
    [d = 0.295624144969963174f], [pi_over_2 = 1.5707963267948966f]. *)
Definition acos_a : F32.float := F32.of_dec (-939115566365855) 15.
Definition acos_b : F32.float := F32.of_dec 9217841528914573 16.
Definition acos_c : F32.float := F32.of_dec (-12845906244690837) 16.
Definition acos_d : F32.float := F32.of_dec 295624144969963174 18.
Definition pi_over_2 : F32.float := F32.of_dec 15707963267948966 16.

(** [fast_acos]: [xx = x * x; numer = b * xx + a;
    denom = xx * (d * xx + c) + 1; return x * (numer / denom) + pi_over_2] *)
Definition fast_acos (x : gvec F32.float) : gvec F32.float :=
  let xx := vec_mul x x in
  let numer := vec_add (vec_mul (splat x acos_b) xx) (splat x acos_a) in
  let denom :=
    vec_add (vec_mul xx (vec_add (vec_mul (splat x acos_d) xx)
                                 (splat x acos_c)))
            (splat x (F32.of_Z 1)) in
  vec_add (vec_mul x (vec_div numer denom)) (splat x pi_over_2).

(** *** Loading and storing

    A buffer is the sequence of the elements of type [T] that start at the
    pointer; [memcpy] of [sizeof(T) * N] bytes moves [N] of them. *)

(** [load<T, N>(ptr)]: [memcpy(&ret, ptr, sizeof(T) * N)] *)
Definition load {T : Type} (N : nat) (ptr : list T) : gvec T := firstn N ptr.

(** [memcpy(ptr + offset, &vec, sizeof(T) * N)], with [N] the width of
    [vec]. *)
Definition store_at {T : Type} (ptr : list T) (offset : nat) (vec : gvec T)
  : list T :=
  firstn offset ptr ++ vec ++ skipn (offset + length vec) ptr.

(** [store(ptr, vec)]: [memcpy(ptr, &vec, sizeof(T) * N)] *)
Definition store {T : Type} (ptr : list T) (vec : gvec T) : list T :=
  store_at ptr 0 vec.

(** [join(a, b)]: [T data[M + N]; memcpy(data, &a, ...);
    memcpy(data + M, &b, ...); return load<T, M + N>(data)].  [data] as
    declared holds [M + N] elements of unspecified value. *)
Definition join {T : Type} (data : list T) (a b : gvec T) : gvec T :=
  load (length a + length b)
       (store_at (store_at data 0 a) (length a) b).

(** *** Basic linear algebra *)

Section Dot.
Context {T : Type} `{Lane T}.

(** The loop of the general width: [s = d[0]; s += d[i]]. *)
Definition reduce_add (d : gvec T) : T :=
  match d with
  | [] => lane_of_int 0
  | d0 :: d' => fold_left lane_add d' d0
  end.

(** [dot]: [d = a * b], then [d.x + d.y] at width 2, [d.x + d.y + d.z] at
    width 3, [d.x + d.y + d.z + d.w] at width 4 and the loop otherwise. *)
Definition dot (a b : gvec T) : T :=
  match vec_mul a b with
  | [dx; dy] => lane_add dx dy
  | [dx; dy; dz] => lane_add (lane_add dx dy) dz
  | [dx; dy; dz; dw] => lane_add (lane_add (lane_add dx dy) dz) dw
  | d => reduce_add d
  end.
End Dot.

(** [cross]: [c = a * b.yx; return c.x - c.y], on two vectors of width 2
    (any other width is not in the type and yields NaN here). *)
Definition cross (a b : gvec F32.float) : F32.float :=
  match vec_mul a (rev b) with
  | [cx; cy] => F32.sub cx cy
  | _ => F32.nan
  end.

End simd.

(** * animation/state_transition.hpp *)

Module StateTransition.

Section Flags.
(** The enumerators of [StateTransitionFlags], declared in
    [animation/state_transition_flags.hpp], as the bit masks they are
    used as. *)
Variables Disabled PauseOnExit EnableExitTime : Z.

(** [isDisabled]: [(transitionFlags() & Disabled) == Disabled], with
    [transitionFlags()] the [flags()] of the transition. *)
Definition isDisabled (flags : Z) : bool :=
  Z.eqb (Z.land flags Disabled) Disabled.

(** [pauseOnExit]: [(transitionFlags() & PauseOnExit) != PauseOnExit] *)
Definition pauseOnExit (flags : Z) : bool :=
  negb (Z.eqb (Z.land flags PauseOnExit) PauseOnExit).

(** [enableExitTime]:
    [(transitionFlags() & EnableExitTime) != EnableExitTime] *)
Definition enableExitTime (flags : Z) : bool :=
  negb (Z.eqb (Z.land flags EnableExitTime) EnableExitTime).
End Flags.

End StateTransition.

(** * rive/math/mat2d.hpp: the affine matrix and its maximal scale *)

(** The arithmetic the scale extraction is carried out in: binary32 for
    the program, the real numbers for the exact reading of its formulas. *)
Record Arith (F : Type) : Type := {
  ar_add : F -> F -> F;
  ar_sub : F -> F -> F;
  ar_mul : F -> F -> F;
  ar_div : F -> F -> F;
  ar_sqrt : F -> F;
  ar_of_Z : Z -> F;
  ar_isfinite : F -> bool;
  ar_ltb : F -> F -> bool
}.

Arguments ar_add {F} _ _ _.
Arguments ar_sub {F} _ _ _.
Arguments ar_mul {F} _ _ _.
Arguments ar_div {F} _ _ _.
Arguments ar_sqrt {F} _ _.
Arguments ar_of_Z {F} _ _.
Arguments ar_isfinite {F} _ _.
Arguments ar_ltb {F} _ _ _.

Definition binary32_arith : Arith F32.float := {|
  ar_add := F32.add;
  ar_sub := F32.sub;
  ar_mul := F32.mul;
  ar_div := F32.div;
  ar_sqrt := F32.sqrtf;
  ar_of_Z := F32.of_Z;
  ar_isfinite := F32.isfinite;
  ar_ltb := F32.ltb
|}.

Definition exact_arith : Arith R := {|
  ar_add := Rplus;
  ar_sub := Rminus;
  ar_mul := Rmult;
  ar_div := Rdiv;
  ar_sqrt := sqrt;
  ar_of_Z := IZR;
  ar_isfinite := fun _ => true;
  ar_ltb := fun x y => if Rlt_dec x y then true else false
|}.

Section MaxScale.
Context {F : Type} (A : Arith F).

Local Notation "x + y" := (ar_add A x y).
Local Notation "x - y" := (ar_sub A x y).
Local Notation "x * y" := (ar_mul A x y).
Local Notation "x / y" := (ar_div A x y).

(** Modelled from the spec: the body of [Mat2D::findMaxScale], which is
    declared in [rive/math/mat2d.hpp] and defined outside the files
    at hand; here its steps 2 to 4.  Of the symmetric matrix
    [S = [[S00, S01], [S01, S11]]] take the trace [T = S00 + S11] and the
    discriminant [T^2 - 4 det S]; the larger eigenvalue is
    [(T + sqrt(discriminant)) / 2]; it is replaced by [0] when it is not
    finite or is negative; the result is its square root. *)
Definition max_eigenvalue_root (S00 S01 S11 : F) : F :=
  let T := S00 + S11 in
  let det := S00 * S11 - S01 * S01 in
  let discriminant := T * T - ar_of_Z A 4 * det in
  let eigenvalue := (T + ar_sqrt A discriminant) / ar_of_Z A 2 in
  let eigenvalue :=
    if ar_isfinite A eigenvalue then eigenvalue else ar_of_Z A 0 in
  let eigenvalue :=
    if ar_ltb A eigenvalue (ar_of_Z A 0) then ar_of_Z A 0 else eigenvalue in
  ar_sqrt A eigenvalue.

(** Modelled from the spec: step 1 of [Mat2D::findMaxScale].  With [M]
    the linear part [(a, b, c, d)], form
    [S = Mt M = [[a^2+b^2, ac+bd], [ac+bd, c^2+d^2]]]. *)
Definition max_scale_of (a b c d : F) : F :=
  max_eigenvalue_root (a * a + b * b) (a * c + b * d) (c * c + d * d).
End MaxScale.

Module Mat2D.

(** Modelled from the spec: the 2x3 affine matrix, six [float]s
    [(a, b, c, d, tx, ty)] for the linear map [[a, c], [b, d]] and the
    translation [(tx, ty)]; the class is declared in
    [rive/math/mat2d.hpp]. *)
Record Mat2D : Type := Mat {
  a : F32.float;
  b : F32.float;
  c : F32.float;
  d : F32.float;
  tx : F32.float;
  ty : F32.float
}.


(** Modelled from the spec: [Mat2D::fromScale(sx, sy)], the pure scale. *)
Definition fromScale (sx sy : F32.float) : Mat2D :=
  Mat sx F32.zero F32.zero sy F32.zero F32.zero.

(** Modelled from the spec: [Mat2D::fromTranslate(x, y)], the pure
    translation. *)
Definition fromTranslate (x y : F32.float) : Mat2D :=
  Mat F32.one F32.zero F32.zero F32.one x y.

(** Modelled from the spec: [operator*], the composition of two affine
    maps in the layout of the data model: the linear parts multiply as the
    matrices [[a, c], [b, d]], and the left operand maps the translation
    of the right one. *)
Definition multiply (m n : Mat2D) : Mat2D :=
  Mat (F32.add (F32.mul (a m) (a n)) (F32.mul (c m) (b n)))
      (F32.add (F32.mul (b m) (a n)) (F32.mul (d m) (b n)))
      (F32.add (F32.mul (a m) (c n)) (F32.mul (c m) (d n)))
      (F32.add (F32.mul (b m) (c n)) (F32.mul (d m) (d n)))
      (F32.add (F32.add (F32.mul (a m) (tx n)) (F32.mul (c m) (ty n))) (tx m))
      (F32.add (F32.add (F32.mul (b m) (tx n)) (F32.mul (d m) (ty n))) (ty m)).

Section Libm.
(** [sinf] and [cosf] of the C library the program is linked with. *)
Variables sinf cosf : F32.float -> F32.float.

(** Modelled from the spec: [Mat2D::fromRotation(rad)], the rotation, the
    linear map [[cos, -sin], [sin, cos]] in the layout of the data
    model. *)
Definition fromRotation (rad : F32.float) : Mat2D :=
  Mat (cosf rad) (sinf rad) (F32.neg (sinf rad)) (cosf rad)
      F32.zero F32.zero.

(** The matrices [rotate] and [rot90Scale] of the test case. *)
Definition rotate : Mat2D :=
  fromRotation (F32.div (F32.mul (F32.of_Z 128) math.PI) (F32.of_Z 180)).

Definition rot90Scale : Mat2D :=
  multiply (fromScale F32.quarter F32.half)
           (fromRotation (F32.div math.PI F32.two)).
End Libm.

(** What is assumed of a cosine [c] and a sine [s] that the C library
    returns for one angle: they are binary32 data of magnitude at most
    [1], and their squared norm as binary32 computes it is within
    [EPSILON] of [1]. *)
Definition unit_pair (c s : F32.float) : Prop :=
  F32.is_binary32 c = true /\ F32.is_binary32 s = true /\
  F32.leb (F32.fabsf c) F32.one = true /\
  F32.leb (F32.fabsf s) F32.one = true /\
  F32.leb (F32.sub F32.one math.EPSILON)
          (F32.add (F32.mul c c) (F32.mul s s)) = true /\
  F32.leb (F32.add (F32.mul c c) (F32.mul s s))
          (F32.add F32.one math.EPSILON) = true.

(** [-4.37113883e-08f], the cosine of [PI / 2] rounded to binary32. *)
Definition cos_half_pi : F32.float := F32.of_dec (-437113883) 16.

(** What is assumed of the cosine the C library returns for [PI / 2]:
    [-4.3715e-08 <= c <= -4.3708e-08], some thousand units in the last
    place around [cos_half_pi]. *)
Definition near_cos_half_pi (c : F32.float) : Prop :=
  F32.leb (F32.of_dec (-43715) 12) c = true /\
  F32.leb c (F32.of_dec (-43708) 12) = true.

(** Modelled from the spec: [Mat2D::findMaxScale], the scale extraction
    on the linear part, in binary32. *)
Definition findMaxScale (m : Mat2D) : F32.float :=
  max_scale_of binary32_arith (a m) (b m) (c m) (d m).

(** The same formulas in exact arithmetic. *)
Definition findMaxScale_exact (a b c d : R) : R :=
  max_scale_of exact_arith a b c d.


Definition transpose : Mat2D :=
  Mat (F32.of_Z 0) (F32.of_Z 3) (F32.of_Z 6) (F32.of_Z 0)
      F32.nan F32.infinity.

Definition translate : Mat2D := fromTranslate (F32.of_Z 10) (F32.of_Z (-5)).

(** [2.39394089e+36f], [3.9159619e+36f], [8.85347779e+36f],
    [1.44823453e+37f], [9.26526204e+36f], [1.51559342e+37f] *)
Definition big : Mat2D :=
  Mat (F32.of_Z (239394089 * 10 ^ 28)) (F32.of_Z (39159619 * 10 ^ 29))
      (F32.of_Z (885347779 * 10 ^ 28)) (F32.of_Z (144823453 * 10 ^ 29))
      (F32.of_Z (926526204 * 10 ^ 28)) (F32.of_Z (151559342 * 10 ^ 29)).

End Mat2D.

(** Modelled from the spec: the 2-vector, a pair of [float]s [(x, y)]
    with its Euclidean length; the class is declared outside the files at
    hand. *)
Module Vec2D.

Record Vec2D : Type := Vec {
  x : F32.float;
  y : F32.float
}.

(** Modelled from the spec: [Vec2D::length], the Euclidean length. *)
Definition length (v : Vec2D) : F32.float :=
  F32.sqrtf (F32.add (F32.mul (x v) (x v)) (F32.mul (y v) (y v))).

End Vec2D.

(** ** test/mat2d_test.cpp: the stretch of unit vectors *)

Module mat2d_test.


Definition gCloseScaleTol : F32.float :=
  F32.div (F32.mul (F32.of_Z 97) F32.one) (F32.of_Z 100).




End mat2d_test.

(** * Properties *)

(** ** Comparison of binary32 values *)

Module F32Facts.
Import F32.

Lemma eqb_refl_nan (x : float) : eqb x x = negb (is_nan x).
Proof.
  destruct x as [s | s | | s m e]; try (destruct s; reflexivity); try reflexivity.
  unfold eqb, SFeqb, SFcompare.
  change (Pos.compare_cont Eq m m) with (Pos.compare m m).
  rewrite Z.compare_refl, Pos.compare_refl.
  destruct s; reflexivity.
Qed.

Lemma ltb_nan_l (x : float) : ltb nan x = false.
Proof. reflexivity. Qed.

Lemma ltb_nan_r (x : float) : ltb x nan = false.
Proof. destruct x; reflexivity. Qed.

Lemma leb_not_nan (x y : float) :
  leb x y = true -> is_nan x = false /\ is_nan y = false.
Proof. destruct x, y; simpl; try discriminate; auto. Qed.

Lemma ltb_not_nan (x y : float) :
  ltb x y = true -> is_nan x = false /\ is_nan y = false.
Proof. destruct x, y; simpl; try discriminate; auto. Qed.

(** Case analysis of the comparisons of exponents and of mantissas that
    [SFcompare] performs. *)
Ltac compare_cases :=
  repeat match goal with
  | |- context [Pos.compare_cont Eq ?m ?n] =>
      change (Pos.compare_cont Eq m n) with (Pos.compare m n)
  | H : context [Pos.compare_cont Eq ?m ?n] |- _ =>
      change (Pos.compare_cont Eq m n) with (Pos.compare m n) in H
  end;
  repeat match goal with
  | H : context [Z.compare ?a ?b] |- _ =>
      destruct (Z.compare_spec a b); simpl in H
  | |- context [Z.compare ?a ?b] =>
      destruct (Z.compare_spec a b); simpl
  | H : context [Pos.compare ?a ?b] |- _ =>
      destruct (Pos.compare_spec a b); simpl in H
  | |- context [Pos.compare ?a ?b] =>
      destruct (Pos.compare_spec a b); simpl
  end;
  try discriminate; try reflexivity; try lia.

Ltac float_cases :=
  unfold leb, ltb, eqb, SFleb, SFltb, SFeqb, SFcompare;
  repeat match goal with
  | s : bool |- _ => destruct s
  end;
  simpl; intros; try discriminate; try reflexivity; compare_cases.

Lemma le_lt_trans (x y z : float) :
  leb x y = true -> ltb y z = true -> ltb x z = true.
Proof.
  destruct x as [sx | sx | | sx mx ex], y as [sy | sy | | sy my ey],
    z as [sz | sz | | sz mz ez]; float_cases.
Qed.

Lemma le_antisym_eqb (x y : float) :
  leb x y = true -> ltb x y = false -> eqb y x = true.
Proof.
  destruct x as [sx | sx | | sx mx ex], y as [sy | sy | | sy my ey];
    float_cases.
Qed.

Lemma leb_lt_or_eq (x y : float) :
  leb x y = ltb x y || eqb x y.
Proof.
  unfold leb, ltb, eqb, SFleb, SFltb, SFeqb.
  destruct (SFcompare x y) as [[ | | ] | ]; reflexivity.
Qed.

(** Two values that compare equal are the same datum, unless both are
    zeros (of any signs). *)
Lemma eqb_eq_or_zero (x y : float) :
  eqb x y = true ->
  x = y \/ (exists s t, x = S754_zero s /\ y = S754_zero t).
Proof.
  destruct x as [sx | sx | | sx mx ex], y as [sy | sy | | sy my ey];
    try (now right; eauto);
    unfold eqb, SFeqb, SFcompare;
    repeat match goal with s : bool |- _ => destruct s end;
    simpl; intros; try discriminate; try (left; reflexivity);
    compare_cases; left; subst; reflexivity.
Qed.

(** binary32 addition does not depend on the order of its operands. *)
Lemma add_comm (x y : float) : add x y = add y x.
Proof.
  unfold add.
  destruct x as [[ | ] | [ | ] | | sx mx ex], y as [[ | ] | [ | ] | | sy my ey];
    try reflexivity.
  unfold SFadd. rewrite (Z.min_comm ey ex). f_equal. apply Z.add_comm.
Qed.

(** [<=] between two positive and between two negative finite data. *)
Lemma leb_finite_pos (m1 m2 : positive) (e1 e2 : Z) :
  leb (S754_finite false m1 e1) (S754_finite false m2 e2) = true ->
  (e1 < e2 \/ (e1 = e2 /\ Z.pos m1 <= Z.pos m2))%Z.
Proof.
  unfold leb, SFleb, SFcompare.
  change (Pos.compare_cont Eq m1 m2) with (Pos.compare m1 m2).
  destruct (Z.compare_spec e1 e2); try discriminate; try lia.
  destruct (Pos.compare_spec m1 m2); try discriminate; lia.
Qed.

Lemma leb_finite_neg (m1 m2 : positive) (e1 e2 : Z) :
  leb (S754_finite true m1 e1) (S754_finite true m2 e2) = true ->
  (e2 < e1 \/ (e1 = e2 /\ Z.pos m2 <= Z.pos m1))%Z.
Proof.
  unfold leb, SFleb, SFcompare.
  change (Pos.compare_cont Eq m1 m2) with (Pos.compare m1 m2).
  destruct (Z.compare_spec e1 e2); try discriminate; try lia.
  destruct (Pos.compare_spec m1 m2); try discriminate; lia.
Qed.

Lemma mul_comm (x y : float) : mul x y = mul y x.
Proof.
  unfold mul.
  destruct x as [[ | ] | [ | ] | | sx mx ex], y as [[ | ] | [ | ] | | sy my ey];
    try reflexivity; simpl;
    try (destruct sx; reflexivity); try (destruct sy; reflexivity).
  now rewrite (xorb_comm sy sx), (Pos.mul_comm my mx), (Z.add_comm ey ex).
Qed.

Lemma mul_neg_neg (x : float) : mul (neg x) (neg x) = mul x x.
Proof. destruct x as [[ | ] | [ | ] | | [ | ] m e]; reflexivity. Qed.

Lemma same_eq (x y : float) : same x y = true -> x = y.
Proof.
  destruct x as [s | s | | s m e], y as [t | t | | t n f]; simpl;
    try discriminate; try reflexivity.
  - intros H. apply Bool.eqb_prop in H. now subst.
  - intros H. apply Bool.eqb_prop in H. now subst.
  - intros H. apply andb_prop in H. destruct H as [H Ee].
    apply andb_prop in H. destruct H as [Es Em].
    apply Bool.eqb_prop in Es. apply Pos.eqb_eq in Em. apply Z.eqb_eq in Ee.
    now subst.
Qed.

Lemma holds_from_sound (f : positive -> bool) (n : nat) :
  forall m : positive,
    holds_from f n m = true ->
    forall k : positive,
      (Z.pos m <= Z.pos k < Z.pos m + Z.of_nat n)%Z -> f k = true.
Proof.
  induction n as [ | n IH]; intros m H k Hk.
  - simpl in Hk. lia.
  - simpl in H. apply andb_prop in H. destruct H as [Hm Hrest].
    destruct (Pos.eq_dec k m) as [-> | Ne]; [ assumption | ].
    apply (IH (Pos.succ m) Hrest). lia.
Qed.

End F32Facts.

(** ** Lanes of the vector operations *)

Module simdFacts.
Import simd.

Lemma lane_zip2 {A B C : Type} (f : A -> B -> C) (a : gvec A) (b : gvec B)
  (i : nat) (x : A) (y : B) :
  nth_error a i = Some x -> nth_error b i = Some y ->
  nth_error (zip2 f a b) i = Some (f x y).
Proof.
  unfold zip2. revert b i.
  induction a as [ | a0 a IH]; intros [ | b0 b] [ | i]; simpl;
    try discriminate.
  - intros [= ->] [= ->]. reflexivity.
  - apply IH.
Qed.

Lemma lane_zip3 {A B C D : Type} (f : A -> B -> C -> D)
  (a : gvec A) (b : gvec B) (c : gvec C) (i : nat) (x : A) (y : B) (z : C) :
  nth_error a i = Some x -> nth_error b i = Some y ->
  nth_error c i = Some z ->
  nth_error (zip3 f a b c) i = Some (f x y z).
Proof.
  unfold zip3. revert b c i.
  induction a as [ | a0 a IH]; intros [ | b0 b] [ | c0 c] [ | i]; simpl;
    try discriminate.
  - intros [= ->] [= ->] [= ->]. reflexivity.
  - apply IH.
Qed.

Lemma lane_splat {A B : Type} (like : gvec A) (s : B) (i : nat) (x : A) :
  nth_error like i = Some x -> nth_error (splat like s) i = Some s.
Proof.
  intros Hx. unfold splat. now rewrite nth_error_map, Hx.
Qed.

Lemma lane_map {A B : Type} (f : A -> B) (a : gvec A) (i : nat) (x : A) :
  nth_error a i = Some x -> nth_error (map f a) i = Some (f x).
Proof.
  intros Hx. now rewrite nth_error_map, Hx.
Qed.

Lemma length_zip2 {A B C : Type} (f : A -> B -> C) (a : gvec A) (b : gvec B) :
  length a = length b -> length (zip2 f a b) = length a.
Proof.
  intros E. unfold zip2.
  rewrite length_map, length_combine, <- E. apply Nat.min_id.
Qed.

Lemma length_zip3 {A B C D : Type} (f : A -> B -> C -> D)
  (a : gvec A) (b : gvec B) (c : gvec C) :
  length a = length b -> length b = length c ->
  length (zip3 f a b c) = length a.
Proof.
  intros E1 E2. unfold zip3.
  rewrite length_map, !length_combine, <- E2, <- E1, !Nat.min_id.
  reflexivity.
Qed.

Lemma truthy_of_bool (b : bool) : truthy (of_bool b) = b.
Proof. destruct b; reflexivity. Qed.

(** One lane of [abs], at any element type. *)
Lemma lane_abs {T : Type} `{Lane T} (a : gvec T) (i : nat) (x : T) :
  nth_error a i = Some x ->
  nth_error (abs a) i
  = Some (if lane_lt x (lane_of_int 0) then lane_neg x else x).
Proof.
  intros Ha. unfold abs, if_then_else, vec_lt, vec_neg.
  erewrite lane_zip3; try eassumption.
  2:{ eapply lane_zip2; [ eassumption | eapply lane_splat; eassumption ]. }
  2:{ eapply lane_map; eassumption. }
  now rewrite truthy_of_bool.
Qed.

(** One lane of the [float] instances of [isnan], [min] and [max]. *)
Section FloatLanes.
Variables (a b : gvec F32.float) (i : nat) (x y : F32.float).
Hypothesis Ha : nth_error a i = Some x.
Hypothesis Hb : nth_error b i = Some y.

Lemma lane_isnan :
  nth_error (isnan a) i = Some (of_bool (F32.is_nan x)).
Proof.
  unfold isnan, vec_not, vec_eq. simpl.
  erewrite lane_map by (eapply lane_zip2; eassumption).
  rewrite truthy_of_bool. simpl. unfold lane_eq. simpl.
  now rewrite F32Facts.eqb_refl_nan, negb_involutive.
Qed.

Lemma lane_min :
  nth_error (min a b) i
  = Some (if F32.ltb y x || F32.is_nan x then y else x).
Proof.
  unfold min, if_then_else, vec_or, vec_lt.
  erewrite lane_zip3; try eassumption.
  2:{ eapply lane_zip2; [ eapply lane_zip2; eassumption | apply lane_isnan ]. }
  now rewrite !truthy_of_bool.
Qed.

Lemma lane_max :
  nth_error (max a b) i
  = Some (if F32.ltb x y || F32.is_nan x then y else x).
Proof.
  unfold max, if_then_else, vec_or, vec_lt.
  erewrite lane_zip3; try eassumption.
  2:{ eapply lane_zip2; [ eapply lane_zip2; eassumption | apply lane_isnan ]. }
  now rewrite !truthy_of_bool.
Qed.
End FloatLanes.

End simdFacts.

(** ** NaN-aware [min] and [max] *)

Module MinMax.
Import simd simdFacts.

(** C6. In every lane of [simd::min(a, b)] and of [simd::max(a, b)], when
    exactly one of the two operands is NaN the result is the operand that
    is not NaN, whichever side it is on; so [min(NaN, 5)], [min(5, NaN)],
    [max(NaN, 5)] and [max(5, NaN)] are all [5]. *)
Theorem min_max_prefer_non_nan :
  (forall (a b : gvec F32.float) (i : nat) (x y : F32.float),
      nth_error a i = Some x -> nth_error b i = Some y ->
      (F32.is_nan x = true -> F32.is_nan y = false ->
       nth_error (min a b) i = Some y /\ nth_error (max a b) i = Some y) /\
      (F32.is_nan x = false -> F32.is_nan y = true ->
       nth_error (min a b) i = Some x /\ nth_error (max a b) i = Some x))
  /\ min [F32.nan; F32.five] [F32.five; F32.nan] = [F32.five; F32.five]
  /\ max [F32.nan; F32.five] [F32.five; F32.nan] = [F32.five; F32.five].
Proof.
  split; [ | split; reflexivity ].
  intros a b i x y Ha Hb.
  rewrite (lane_min a b i x y Ha Hb), (lane_max a b i x y Ha Hb).
  split; intros Hx Hy.
  - rewrite Hx, !orb_true_r. split; reflexivity.
  - destruct y; try discriminate.
    rewrite Hx, !F32Facts.ltb_nan_l, !F32Facts.ltb_nan_r. split; reflexivity.
Qed.

Lemma min_max_prefer_non_nan_witness :
  nth_error (min [F32.five; F32.nan] [F32.nan; F32.five]) 1%nat = Some F32.five /\
  nth_error (max [F32.five; F32.nan] [F32.nan; F32.five]) 1%nat = Some F32.five.
Proof.
  apply (proj1 (proj1 min_max_prefer_non_nan [F32.five; F32.nan] [F32.nan; F32.five]
                  1%nat F32.nan F32.five eq_refl eq_refl));
    reflexivity.
Defined.

End MinMax.

(** ** [clamp] *)

Module Clamp.
Import simd simdFacts.

Section Lanes.
Variables (vx vlo vhi : gvec F32.float) (i : nat) (x lo hi : F32.float).
Hypothesis Hx : nth_error vx i = Some x.
Hypothesis Hlo : nth_error vlo i = Some lo.
Hypothesis Hhi : nth_error vhi i = Some hi.

Let m : F32.float := if F32.ltb lo x || F32.is_nan lo then x else lo.

Lemma lane_clamp :
  nth_error (clamp vx vlo vhi) i
  = Some (if F32.ltb hi m || F32.is_nan m then hi else m).
Proof.
  unfold clamp.
  apply (lane_min (max vlo vx) vhi i m hi); [ | assumption ].
  apply lane_max; assumption.
Qed.

Lemma clamp_nan_x :
  F32.is_nan x = true -> F32.is_nan lo = false -> F32.ltb hi lo = false ->
  nth_error (clamp vx vlo vhi) i = Some lo.
Proof.
  intros Nx Nlo Hlt. rewrite lane_clamp. subst m.
  destruct x; try discriminate.
  rewrite F32Facts.ltb_nan_r, Nlo. simpl. now rewrite Hlt, Nlo.
Qed.

Lemma clamp_hi_le_lo :
  F32.leb hi lo = true ->
  exists r, nth_error (clamp vx vlo vhi) i = Some r /\
            F32.eqb r hi = true /\
            (F32.ltb hi lo = true -> r = hi) /\
            (r = hi \/ exists s t, lo = S754_zero s /\ hi = S754_zero t).
Proof.
  intros Hle. rewrite lane_clamp. subst m.
  destruct (F32Facts.leb_not_nan _ _ Hle) as [Nhi Nlo].
  assert (Ehi : F32.eqb hi hi = true)
    by now rewrite F32Facts.eqb_refl_nan, Nhi.
  rewrite Nlo, orb_false_r.
  destruct (F32.ltb lo x) eqn:Hlx.
  - rewrite (F32Facts.le_lt_trans hi lo x Hle Hlx). simpl.
    exists hi. auto.
  - rewrite Nlo, orb_false_r.
    destruct (F32.ltb hi lo) eqn:Hlt.
    + exists hi. auto.
    + exists lo. pose proof (F32Facts.le_antisym_eqb hi lo Hle Hlt) as E.
      repeat split; [ assumption | discriminate | ].
      destruct (F32Facts.eqb_eq_or_zero lo hi E); auto.
Qed.

Lemma clamp_nan_lo :
  F32.is_nan lo = true ->
  nth_error (clamp vx vlo vhi) i = nth_error (min vx vhi) i.
Proof.
  intros Nlo. rewrite lane_clamp, (lane_min vx vhi i x hi Hx Hhi). subst m.
  now rewrite Nlo, orb_true_r.
Qed.

Lemma clamp_nan_hi :
  F32.is_nan hi = true ->
  nth_error (clamp vx vlo vhi) i = nth_error (max vlo vx) i.
Proof.
  intros Nhi. rewrite lane_clamp, (lane_max vlo vx i lo x Hlo Hx).
  fold m. destruct hi; try discriminate.
  rewrite F32Facts.ltb_nan_l. simpl. now destruct m.
Qed.
End Lanes.

(** C7, as the code has it. [simd::clamp(x, lo, hi)] is
    [min(max(lo, x), hi)]; in a lane where [x] is NaN it yields [lo]
    provided [lo] is not NaN and [hi] is not below [lo]; in a lane where
    [hi <= lo] it yields, whatever [x] is, a value that compares equal to
    [hi]: [hi] itself, or the zero [lo] when both bounds are zeros; a NaN
    [lo] leaves [min(x, hi)] and a NaN [hi] leaves [max(lo, x)]. *)
Theorem clamp_contract
  (vx vlo vhi : gvec F32.float) (i : nat) (x lo hi : F32.float) :
  nth_error vx i = Some x -> nth_error vlo i = Some lo ->
  nth_error vhi i = Some hi ->
  clamp vx vlo vhi = min (max vlo vx) vhi /\
  (F32.is_nan x = true -> F32.is_nan lo = false -> F32.ltb hi lo = false ->
   nth_error (clamp vx vlo vhi) i = Some lo) /\
  (F32.leb hi lo = true ->
   exists r, nth_error (clamp vx vlo vhi) i = Some r /\
             F32.eqb r hi = true /\
             (F32.ltb hi lo = true -> r = hi) /\
             (r = hi \/ exists s t, lo = S754_zero s /\ hi = S754_zero t)) /\
  (F32.is_nan lo = true ->
   nth_error (clamp vx vlo vhi) i = nth_error (min vx vhi) i) /\
  (F32.is_nan hi = true ->
   nth_error (clamp vx vlo vhi) i = nth_error (max vlo vx) i).
Proof.
  intros Hx Hlo Hhi. split; [ reflexivity | ].
  split; [ eapply clamp_nan_x; eassumption | ].
  split; [ eapply clamp_hi_le_lo; eassumption | ].
  split; [ eapply clamp_nan_lo | eapply clamp_nan_hi ]; eassumption.
Qed.

Lemma clamp_contract_witness :
  nth_error (clamp [F32.nan] [F32.three] [F32.five]) 0%nat = Some F32.three.
Proof.
  apply (proj1 (proj2 (clamp_contract [F32.nan] [F32.three] [F32.five] 0%nat
                         F32.nan F32.three F32.five eq_refl eq_refl eq_refl)));
    reflexivity.
Defined.

(** With [x] NaN, [lo = 5] and [hi = 3] the lane is [hi], not [lo]. *)
Lemma clamp_nan_not_lo :
  F32.is_nan F32.nan = true /\
  nth_error (clamp [F32.nan] [F32.five] [F32.three]) 0%nat = Some F32.three /\
  nth_error (clamp [F32.nan] [F32.five] [F32.three]) 0%nat <> Some F32.five.
Proof.
  split; [ reflexivity | split; [ reflexivity | ] ].
  vm_compute. discriminate.
Qed.

End Clamp.

(** ** [abs] *)

Module Abs.
Import simd simdFacts.

Lemma wrap_in_range (z : Z) : I32.in_range z -> I32.wrap z = z.
Proof.
  unfold I32.in_range, I32.wrap, I32.min_signed, I32.max_signed, I32.modulus.
  intros Hz. rewrite Z.mod_small; lia.
Qed.

Lemma wrap_neg_min_signed : I32.wrap (- I32.min_signed) = I32.min_signed.
Proof. reflexivity. Qed.

Lemma float_abs_lane (x : F32.float) :
  let r := if F32.ltb x F32.zero then F32.neg x else x in
  (F32.is_nan x = false -> F32.eqb r (F32.fabsf x) = true) /\
  (x <> F32.nzero -> r = F32.fabsf x).
Proof.
  intros r.
  assert (E : x <> F32.nzero -> r = F32.fabsf x).
  { subst r. unfold F32.nzero.
    destruct x as [[ | ] | [ | ] | | [ | ] m e]; simpl; intros Hx;
      try reflexivity; congruence. }
  split; [ intros Hn | exact E ].
  destruct x as [[ | ] | s | | s m e]; try reflexivity; try discriminate;
    rewrite E by discriminate;
    rewrite F32Facts.eqb_refl_nan; reflexivity.
Qed.

(** C9. [simd::abs(x)] is the absolute value in every lane.  In an
    [int32_t] lane other than [INT32_MIN] it is [|x|]; the negation wraps
    modulo 2^32, so the lane [INT32_MIN] maps to itself.  A [uint32_t]
    lane, never below [0], is returned as it is.  In a [float] lane the
    result compares equal to [fabsf(x)] and is [fabsf(x)] itself except
    that the zero [-0.0], not below [0], is returned unchanged; NaN is
    never negated. *)
Theorem abs_lanes :
  (forall (a : gvec int32_t) (i : nat) (x : Z),
      nth_error a i = Some (Int32 x) -> I32.in_range x ->
      (x <> I32.min_signed ->
       nth_error (abs a) i = Some (Int32 (Z.abs x)) /\
       I32.in_range (Z.abs x)) /\
      (x = I32.min_signed ->
       nth_error (abs a) i = Some (Int32 I32.min_signed)))
  /\ (forall (a : gvec uint32_t) (i : nat) (x : Z),
      nth_error a i = Some (UInt32 x) -> I32.in_urange x ->
      nth_error (abs a) i = Some (UInt32 x))
  /\ (forall (a : gvec F32.float) (i : nat) (x : F32.float),
      nth_error a i = Some x ->
      exists r, nth_error (abs a) i = Some r /\
                (F32.is_nan x = false -> F32.eqb r (F32.fabsf x) = true) /\
                (x <> F32.nzero -> r = F32.fabsf x) /\
                (F32.is_nan x = true -> r = x))
  /\ abs [Int32 I32.min_signed; Int32 (-7); Int32 7; Int32 I32.max_signed]
     = [Int32 I32.min_signed; Int32 7; Int32 7; Int32 I32.max_signed].
Proof.
  split; [ | split; [ | split; [ | reflexivity ] ] ].
  - intros a i x Ha Hx. rewrite (lane_abs a i _ Ha).
    cbn [lane_lt lane_neg lane_of_int Lane_int32 int32_val].
    change (I32.wrap 0) with 0.
    unfold I32.in_range, I32.min_signed, I32.max_signed in *.
    split.
    + intros Hmin. destruct (Z.ltb_spec x 0).
      * rewrite wrap_in_range
          by (unfold I32.in_range, I32.min_signed, I32.max_signed; lia).
        rewrite Z.abs_neq by lia. split; [ reflexivity | lia ].
      * rewrite Z.abs_eq by lia. split; [ reflexivity | lia ].
    + intros ->. reflexivity.
  - intros a i x Ha Hx. rewrite (lane_abs a i _ Ha).
    cbn [lane_lt lane_neg lane_of_int Lane_uint32 uint32_val].
    change (I32.uwrap 0) with 0.
    unfold I32.in_urange in Hx.
    destruct (Z.ltb_spec x 0); [ lia | reflexivity ].
  - intros a i x Ha. rewrite (lane_abs a i _ Ha).
    eexists. split; [ reflexivity | ].
    destruct (float_abs_lane x) as [H1 H2].
    repeat split; try assumption.
    intros Hn. destruct x; try discriminate. reflexivity.
Qed.

Lemma abs_lanes_witness :
  nth_error (abs [Int32 5; Int32 (-3)]) 1%nat = Some (Int32 (Z.abs (-3))) /\
  I32.in_range (Z.abs (-3)).
Proof.
  apply (proj1 (proj1 abs_lanes [Int32 5; Int32 (-3)] 1%nat (-3) eq_refl
                  ltac:(unfold I32.in_range, I32.min_signed, I32.max_signed;
                        lia))).
  unfold I32.min_signed. lia.
Defined.

End Abs.

(** ** [mix] and [lerp] *)

Module Mix.
Import simd simdFacts.

Section Lanes.
Variables (a b : gvec F32.float) (i : nat) (x y : F32.float).
Hypothesis Ha : nth_error a i = Some x.
Hypothesis Hb : nth_error b i = Some y.

Lemma lane_mix (t : F32.float) :
  nth_error (mix a b t) i
  = Some (F32.add (F32.mul (F32.sub y x) t) x).
Proof.
  unfold mix, vec_add, vec_mul, vec_sub.
  apply lane_zip2; [ | assumption ].
  apply lane_zip2; [ | eapply lane_splat; eassumption ].
  apply lane_zip2; assumption.
Qed.

Lemma lane_mixv (vt : gvec F32.float) (t : F32.float) :
  nth_error vt i = Some t ->
  nth_error (mixv a b vt) i
  = Some (F32.add (F32.mul (F32.sub y x) t) x).
Proof.
  intros Ht. unfold mixv, vec_add, vec_mul, vec_sub.
  apply lane_zip2; [ | assumption ].
  apply lane_zip2; [ | assumption ].
  apply lane_zip2; assumption.
Qed.
End Lanes.

(** C8. Under the precondition [0 <= t < 1] the [assert] of [simd::mix]
    passes and every lane of the result is exactly [(b - a) * t + a], for
    a scalar and for a per-lane [t].  At [t == 1] the result need not be
    [b]: [mix(1e8, 1, 1)] is [0].  That call violates the [assert], which
    only a build that keeps assertions traps; a release build returns the
    value of the same formula. *)
Theorem mix_formula :
  (forall (a b : gvec F32.float) (t : F32.float) (i : nat)
          (x y : F32.float),
      nth_error a i = Some x -> nth_error b i = Some y ->
      mix_assert t = true ->
      mix_checked a b t = Some (mix a b t) /\
      nth_error (mix a b t) i = Some (F32.add (F32.mul (F32.sub y x) t) x))
  /\ (forall (a b vt : gvec F32.float) (i : nat) (x y t : F32.float),
      nth_error a i = Some x -> nth_error b i = Some y ->
      nth_error vt i = Some t ->
      nth_error (mixv a b vt) i
      = Some (F32.add (F32.mul (F32.sub y x) t) x))
  /\ (F32.is_binary32 F32.f1e8 = true /\
      mix [F32.f1e8] [F32.one] F32.one = [F32.zero] /\
      mix [F32.f1e8] [F32.one] F32.one <> [F32.one] /\
      mix_assert F32.one = false /\
      mix_checked [F32.f1e8] [F32.one] F32.one = None).
Proof.
  split; [ | split ].
  - intros a b t i x y Ha Hb Ht. split.
    + unfold mix_checked. now rewrite Ht.
    + apply lane_mix; assumption.
  - intros a b vt i x y t Ha Hb Ht. eapply lane_mixv; eassumption.
  - repeat split; try reflexivity. vm_compute. discriminate.
Qed.

Lemma mix_formula_witness :
  mix_checked [F32.one] [F32.four] F32.half
  = Some (mix [F32.one] [F32.four] F32.half) /\
  nth_error (mix [F32.one] [F32.four] F32.half) 0%nat
  = Some (F32.add (F32.mul (F32.sub F32.four F32.one) F32.half) F32.one).
Proof.
  apply (proj1 mix_formula [F32.one] [F32.four] F32.half 0%nat
           F32.one F32.four eq_refl eq_refl eq_refl).
Defined.

(** C10. The scalar [lerp(a, b, t) = a + (b - a) * t] and every lane of
    [simd::mix(a, b, t) = (b - a) * t + a] are the same binary32 value,
    for all operands, so in particular for [0 <= t < 1]. *)
Theorem mix_agrees_with_lerp (a b : gvec F32.float) (t : F32.float) :
  mix a b t = zip2 (fun x y => lerp x y t) a b.
Proof.
  unfold mix, vec_add, vec_mul, vec_sub, splat, zip2, lerp.
  revert b. induction a as [ | x a IH]; intros [ | y b]; simpl;
    try reflexivity.
  f_equal; [ apply F32Facts.add_comm | apply IH ].
Qed.

End Mix.

(** ** Rounding to binary32 *)

Module Rounding.
Import F32.

Lemma iter_pos_invariant {A : Type} (P : A -> Prop) (f : A -> A) :
  (forall x, P x -> P (f x)) ->
  forall (n : positive) (x : A), P x -> P (iter_pos f n x).
Proof.
  intros Hf. induction n as [n IH | n IH | ]; intros x Hx; simpl; auto.
Qed.

Lemma shr_1_nonneg (mrs : shr_record) :
  0 <= shr_m mrs -> 0 <= shr_m (shr_1 mrs).
Proof.
  destruct mrs as [[ | [p | p | ] | p] r s]; simpl; lia.
Qed.

Lemma shr_nonneg (mrs : shr_record) (e n : Z) :
  0 <= shr_m mrs -> 0 <= shr_m (fst (shr mrs e n)).
Proof.
  intros Hm. destruct n as [ | p | p]; simpl; try assumption.
  apply (iter_pos_invariant (fun r => 0 <= shr_m r)); [ | assumption ].
  apply shr_1_nonneg.
Qed.

Lemma shr_m_of_loc (m : Z) (l : location) :
  shr_m (shr_record_of_loc m l) = m.
Proof. destruct l as [ | [ | | ]]; reflexivity. Qed.

Lemma shr_fexp_nonneg (m e : Z) (l : location) :
  0 <= m -> 0 <= shr_m (fst (shr_fexp prec emax m e l)).
Proof.
  intros Hm. unfold shr_fexp. apply shr_nonneg. now rewrite shr_m_of_loc.
Qed.

Lemma round_nearest_even_nonneg (m : Z) (l : location) :
  0 <= m -> 0 <= round_nearest_even m l.
Proof.
  intros Hm. destruct l as [ | [ | | ]]; simpl; try lia.
  destruct (Z.even m); lia.
Qed.

Lemma binary_round_aux_sign (s : bool) (m e : Z) (l : location) :
  0 <= m -> has_sign s (binary_round_aux prec emax s m e l).
Proof.
  intros Hm. unfold binary_round_aux.
  pose proof (shr_fexp_nonneg m e l Hm) as H1.
  destruct (shr_fexp prec emax m e l) as [mrs' e']. simpl in H1.
  pose proof (round_nearest_even_nonneg _ (loc_of_shr_record mrs') H1) as H2.
  pose proof (shr_fexp_nonneg _ e' loc_Exact H2) as H3.
  destruct (shr_fexp prec emax _ e' loc_Exact) as [mrs'' e''].
  simpl in H3.
  destruct (shr_m mrs'') as [ | p | p]; simpl; try reflexivity; try lia.
  destruct (e'' <=? _); simpl; reflexivity.
Qed.

Lemma has_sign_false_nonneg (x : float) :
  has_sign false x -> leb zero x = true.
Proof.
  destruct x as [s | s | | s m e]; simpl; try contradiction;
    intros ->; reflexivity.
Qed.

(** [sqrtf] of a finite datum that is not below zero is neither NaN nor
    below zero. *)
Lemma sqrtf_nonneg (x : float) :
  isfinite x = true -> ltb x zero = false -> leb zero (sqrtf x) = true.
Proof.
  destruct x as [s | s | | [ | ] m e]; try discriminate; intros _ Hx.
  - reflexivity.
  - apply has_sign_false_nonneg.
    unfold sqrtf, SFsqrt, SFsqrt_core_binary.
    set (m' := match e - 2 * _ with Z0 => _ | Zpos _ => _ | Zneg _ => _ end).
    pose proof (Z.sqrtrem_sqrt m') as Hq.
    destruct (Z.sqrtrem m') as [q r]. simpl in Hq.
    apply binary_round_aux_sign. rewrite Hq. apply Z.sqrt_nonneg.
Qed.

(** *** Overflow *)

Lemma digits2_pos_bounds (p : positive) :
  2 ^ (Z.pos (digits2_pos p) - 1) <= Z.pos p < 2 ^ Z.pos (digits2_pos p).
Proof.
  induction p as [p IH | p IH | ]; simpl digits2_pos.
  - rewrite Pos2Z.inj_succ. change (Z.pos p~1) with (2 * Z.pos p + 1).
    replace (Z.succ (Z.pos (digits2_pos p)) - 1)
      with (Z.succ (Z.pos (digits2_pos p) - 1)) by lia.
    rewrite !Z.pow_succ_r by lia. lia.
  - rewrite Pos2Z.inj_succ. change (Z.pos p~0) with (2 * Z.pos p).
    replace (Z.succ (Z.pos (digits2_pos p)) - 1)
      with (Z.succ (Z.pos (digits2_pos p) - 1)) by lia.
    rewrite !Z.pow_succ_r by lia. lia.
  - simpl. lia.
Qed.

Lemma shr_1_lower (k : Z) (mrs : shr_record) :
  0 <= k -> 2 ^ (k + 1) <= shr_m mrs -> 2 ^ k <= shr_m (shr_1 mrs).
Proof.
  intros Hk. rewrite Z.pow_add_r, Z.pow_1_r by lia.
  pose proof (Z.pow_pos_nonneg 2 k ltac:(lia) Hk) as Hpos.
  destruct mrs as [[ | [p | p | ] | p] r s]; simpl; lia.
Qed.

Lemma iter_shr_1_lower (p : positive) :
  forall (k : Z) (mrs : shr_record),
    0 <= k -> 2 ^ (k + Z.pos p) <= shr_m mrs ->
    2 ^ k <= shr_m (iter_pos shr_1 p mrs).
Proof.
  induction p as [p IH | p IH | ]; intros k mrs Hk Hm; simpl.
  - apply IH; [ assumption | ]. apply IH; [ lia | ].
    apply shr_1_lower; [ lia | ].
    replace (k + Z.pos p + Z.pos p + 1) with (k + Z.pos p~1) by lia.
    assumption.
  - apply IH; [ assumption | ]. apply IH; [ lia | ].
    replace (k + Z.pos p + Z.pos p) with (k + Z.pos p~0) by lia.
    assumption.
  - apply shr_1_lower; assumption.
Qed.

(** Truncation of a positive mantissa to the precision leaves it positive
    and does not lower the exponent. *)
Lemma shr_fexp_lower (q : positive) (e : Z) (l : location) :
  - 149 <= Z.pos (digits2_pos q) + e - 24 ->
  0 < shr_m (fst (shr_fexp prec emax (Z.pos q) e l)) /\
  e <= snd (shr_fexp prec emax (Z.pos q) e l) /\
  Z.pos (digits2_pos q) + e - 24 <= snd (shr_fexp prec emax (Z.pos q) e l).
Proof.
  intros Hd. unfold shr_fexp, fexp, emin, prec, emax. simpl Zdigits2.
  rewrite Z.max_l by lia.
  replace (Z.pos (digits2_pos q) + e - 24 - e)
    with (Z.pos (digits2_pos q) - 24) by lia.
  destruct (Z.pos (digits2_pos q) - 24) as [ | n | n] eqn:En;
    unfold shr; cbn [fst snd]; rewrite ?shr_m_of_loc; try lia.
  split; [ | lia ].
  apply Z.lt_le_trans with (2 ^ 0); [ reflexivity | ].
  apply iter_shr_1_lower; [ lia | ]. rewrite shr_m_of_loc.
  apply Z.le_trans with (2 ^ (Z.pos (digits2_pos q) - 1)).
  - apply Z.pow_le_mono_r; lia.
  - apply digits2_pos_bounds.
Qed.

Lemma round_nearest_even_ge (m : Z) (l : location) :
  m <= round_nearest_even m l.
Proof.
  destruct l as [ | [ | | ]]; simpl; try lia. destruct (Z.even m); lia.
Qed.

(** A product or sum whose magnitude is at least [2^128] rounds to the
    infinity of its sign. *)
Lemma binary_round_aux_overflow (s : bool) (q : positive) (e : Z) :
  emax < Z.pos (digits2_pos q) + e ->
  binary_round_aux prec emax s (Z.pos q) e loc_Exact = S754_infinity s.
Proof.
  intros Hd. unfold emax in Hd. unfold binary_round_aux.
  destruct (shr_fexp_lower q e loc_Exact ltac:(lia)) as (M1 & _ & E1).
  destruct (shr_fexp prec emax (Z.pos q) e loc_Exact) as [mrs' e'].
  cbn [fst snd] in M1, E1.
  pose proof (round_nearest_even_ge (shr_m mrs') (loc_of_shr_record mrs'))
    as R.
  destruct (round_nearest_even (shr_m mrs') (loc_of_shr_record mrs'))
    as [ | q2 | q2]; try lia.
  pose proof (Pos2Z.is_pos (digits2_pos q2)) as D2.
  destruct (shr_fexp_lower q2 e' loc_Exact ltac:(lia)) as (M2 & E2 & _).
  destruct (shr_fexp prec emax (Z.pos q2) e' loc_Exact) as [mrs'' e''].
  cbn [fst snd] in M2, E2.
  destruct (shr_m mrs'') as [ | q3 | q3]; try lia.
  unfold emax, prec.
  destruct (Z.leb_spec e'' (128 - 24)); [ lia | reflexivity ].
Qed.

Lemma digits2_pos_square (m : positive) :
  2 * Z.pos (digits2_pos m) - 1 <= Z.pos (digits2_pos (m * m)).
Proof.
  destruct (digits2_pos_bounds m) as [L _].
  destruct (digits2_pos_bounds (m * m)) as [_ U].
  rewrite Pos2Z.inj_mul in U.
  assert (P : 0 < 2 ^ (Z.pos (digits2_pos m) - 1))
    by (apply Z.pow_pos_nonneg; lia).
  assert (S : 2 ^ (Z.pos (digits2_pos m) - 1 + (Z.pos (digits2_pos m) - 1))
              < 2 ^ Z.pos (digits2_pos (m * m))).
  { rewrite Z.pow_add_r by lia. nia. }
  apply Z.pow_lt_mono_r_iff in S; lia.
Qed.

(** *** Absence of overflow *)

Lemma binary_round_aux_opp (s : bool) (m e : Z) (l : location) :
  binary_round_aux prec emax (negb s) m e l
  = neg (binary_round_aux prec emax s m e l).
Proof.
  unfold binary_round_aux.
  destruct (shr_fexp prec emax m e l) as [mrs' e'].
  destruct (shr_fexp prec emax _ e' loc_Exact) as [mrs'' e''].
  destruct (shr_m mrs'') as [ | p | p]; try reflexivity.
  destruct (e'' <=? _); reflexivity.
Qed.

Lemma mul_neg_r (x y : float) : mul x (neg y) = neg (mul x y).
Proof.
  destruct x as [sx | sx | | sx mx ex], y as [sy | sy | | sy my ey];
    try reflexivity; simpl;
    try (destruct sx, sy; reflexivity).
  unfold mul, SFmul. rewrite <- binary_round_aux_opp.
  now destruct sx, sy.
Qed.

Lemma add_neg_self (p : float) :
  isfinite p = true -> add (neg p) p = zero.
Proof.
  destruct p as [[ | ] | s | | s m e]; try discriminate; try reflexivity.
  intros _. unfold add, neg, SFopp, SFadd.
  rewrite Z.min_id. unfold shl_align. rewrite Z.sub_diag. cbn [fst].
  destruct s; simpl; now rewrite Z.pos_sub_diag.
Qed.

Lemma shr_1_digits (mrs : shr_record) :
  0 <= shr_m mrs ->
  Zdigits2 (shr_m (shr_1 mrs)) = Z.max 0 (Zdigits2 (shr_m mrs) - 1).
Proof.
  destruct mrs as [[ | [p | p | ] | p] r s]; simpl shr_m; intros Hm;
    try lia; simpl Zdigits2; try reflexivity;
    rewrite ?Pos2Z.inj_succ; lia.
Qed.

Lemma iter_shr_1_digits (p : positive) :
  forall mrs : shr_record,
    0 <= shr_m mrs ->
    0 <= shr_m (iter_pos shr_1 p mrs) /\
    Zdigits2 (shr_m (iter_pos shr_1 p mrs))
    = Z.max 0 (Zdigits2 (shr_m mrs) - Z.pos p).
Proof.
  induction p as [p IH | p IH | ]; intros mrs Hm; simpl iter_pos.
  - pose proof (shr_1_nonneg mrs Hm) as H1.
    pose proof (shr_1_digits mrs Hm) as D1.
    destruct (IH _ H1) as [H2 D2]. destruct (IH _ H2) as [H3 D3].
    split; [ assumption | ]. rewrite D3, D2, D1. lia.
  - destruct (IH _ Hm) as [H2 D2]. destruct (IH _ H2) as [H3 D3].
    split; [ assumption | ]. rewrite D3, D2. lia.
  - split; [ now apply shr_1_nonneg | ]. now apply shr_1_digits.
Qed.

Lemma Zdigits2_nonneg (m : Z) : 0 <= Zdigits2 m.
Proof. destruct m; simpl; lia. Qed.

(** The exponent and the number of digits after truncation to the
    precision. *)
Lemma shr_fexp_spec (m e : Z) (l : location) :
  0 <= m ->
  0 <= shr_m (fst (shr_fexp prec emax m e l)) /\
  snd (shr_fexp prec emax m e l)
  = Z.max e (fexp prec emax (Zdigits2 m + e)) /\
  Zdigits2 (shr_m (fst (shr_fexp prec emax m e l)))
  = Z.max 0 (Zdigits2 m - (snd (shr_fexp prec emax m e l) - e)).
Proof.
  intros Hm. unfold shr_fexp.
  pose proof (Zdigits2_nonneg m) as Hd.
  destruct (fexp prec emax (Zdigits2 m + e) - e) as [ | n | n] eqn:En;
    unfold shr; cbn [fst snd]; rewrite ?shr_m_of_loc.
  - repeat split; [ assumption | lia | lia ].
  - destruct (iter_shr_1_digits n (shr_record_of_loc m l)) as [H D];
      [ now rewrite shr_m_of_loc | ].
    rewrite shr_m_of_loc in D.
    repeat split; [ assumption | lia | rewrite D; lia ].
  - repeat split; [ assumption | lia | lia ].
Qed.

Lemma round_nearest_even_cases (m : Z) (l : location) :
  round_nearest_even m l = m \/ round_nearest_even m l = m + 1.
Proof.
  destruct l as [ | [ | | ]]; simpl; auto. destruct (Z.even m); auto.
Qed.

Lemma Zdigits2_succ_le (m : Z) :
  0 <= m -> Zdigits2 (m + 1) <= Zdigits2 m + 1.
Proof.
  intros Hm. destruct m as [ | p | p]; try lia; [ simpl; lia | ].
  change (Z.pos p + 1) with (Z.pos (p + 1)). simpl Zdigits2.
  destruct (digits2_pos_bounds p) as [_ U].
  destruct (digits2_pos_bounds (p + 1)) as [L _].
  assert (S : 2 ^ (Z.pos (digits2_pos (p + 1)) - 1)
              <= 2 ^ Z.pos (digits2_pos p)) by lia.
  apply Z.pow_le_mono_r_iff in S; lia.
Qed.

(** A positive mantissa whose exponent is in range and whose magnitude is
    below [2^127] rounds to a finite datum. *)
Lemma binary_round_aux_no_overflow (s : bool) (q : positive) (e : Z)
  (l : location) :
  e <= emax - prec -> Z.pos (digits2_pos q) + e <= emax - 1 ->
  isfinite (binary_round_aux prec emax s (Z.pos q) e l) = true.
Proof.
  intros He Hd. unfold emax, prec in He, Hd. unfold binary_round_aux.
  destruct (shr_fexp_spec (Z.pos q) e l ltac:(lia)) as (M1 & E1 & D1).
  simpl Zdigits2 in E1, D1.
  destruct (shr_fexp prec emax (Z.pos q) e l) as [mrs' e'].
  cbn [fst snd] in M1, E1, D1.
  set (rne := round_nearest_even (shr_m mrs') (loc_of_shr_record mrs')).
  assert (R0 : 0 <= rne) by now apply round_nearest_even_nonneg.
  assert (RD : Zdigits2 rne <= Zdigits2 (shr_m mrs') + 1).
  { unfold rne.
    destruct (round_nearest_even_cases (shr_m mrs')
                (loc_of_shr_record mrs')) as [E | E]; rewrite E;
      [ lia | now apply Zdigits2_succ_le ]. }
  destruct (shr_fexp_spec rne e' loc_Exact R0) as (M2 & E2 & _).
  destruct (shr_fexp prec emax rne e' loc_Exact) as [mrs'' e''].
  cbn [fst snd] in M2, E2.
  destruct (shr_m mrs'') as [ | q3 | q3]; try reflexivity; try lia.
  unfold fexp, emin, prec, emax in E1, E2.
  destruct (Z.leb_spec e'' (emax - prec)) as [H | H]; [ reflexivity | ].
  unfold emax, prec in H. lia.
Qed.

Lemma digits2_pos_mul_le (m n : positive) :
  Z.pos (digits2_pos (m * n))
  <= Z.pos (digits2_pos m) + Z.pos (digits2_pos n).
Proof.
  destruct (digits2_pos_bounds m) as [_ Um].
  destruct (digits2_pos_bounds n) as [_ Un].
  destruct (digits2_pos_bounds (m * n)) as [L _].
  rewrite Pos2Z.inj_mul in L.
  assert (S : 2 ^ (Z.pos (digits2_pos (m * n)) - 1)
              < 2 ^ (Z.pos (digits2_pos m) + Z.pos (digits2_pos n))).
  { rewrite Z.pow_add_r by lia. nia. }
  apply Z.pow_lt_mono_r_iff in S; lia.
Qed.

(** A binary32 datum of magnitude at most [1]: its exponent and the length
    of its mantissa. *)
Lemma le_one_exponent (s : bool) (m : positive) (e : Z) :
  is_binary32 (S754_finite s m e) = true ->
  leb (fabsf (S754_finite s m e)) one = true ->
  e <= -23 /\ Z.pos (digits2_pos m) <= 24.
Proof.
  unfold is_binary32, valid_binary, bounded, canonical_mantissa.
  intros V H. apply andb_prop in V. destruct V as [C _].
  apply Z.eqb_eq in C. unfold fexp, emin, prec, emax in C.
  revert H. unfold leb, SFleb. simpl fabsf.
  change one with (S754_finite false 8388608 (-23)). unfold SFcompare.
  destruct (Z.compare_spec e (-23)); try discriminate; intros _; lia.
Qed.

Lemma mul_small_finite (x y : float) :
  is_binary32 x = true -> is_binary32 y = true ->
  leb (fabsf x) one = true -> leb (fabsf y) one = true ->
  isfinite (mul x y) = true.
Proof.
  destruct x as [sx | sx | | sx mx ex], y as [sy | sy | | sy my ey];
    try discriminate; try reflexivity.
  intros Vx Vy Hx Hy.
  destruct (le_one_exponent sx mx ex Vx Hx) as [Ex Dx].
  destruct (le_one_exponent sy my ey Vy Hy) as [Ey Dy].
  unfold mul, SFmul. apply binary_round_aux_no_overflow; unfold emax, prec.
  - lia.
  - pose proof (digits2_pos_mul_le mx my). lia.
Qed.

(** *** Results are binary32 data *)

Lemma Zdigits2_le (m n : Z) : 0 <= m <= n -> Zdigits2 m <= Zdigits2 n.
Proof.
  intros [Hm Hn].
  destruct m as [ | p | p]; try lia; [ apply Zdigits2_nonneg | ].
  destruct n as [ | q | q]; try lia. simpl Zdigits2.
  destruct (digits2_pos_bounds p) as [L _].
  destruct (digits2_pos_bounds q) as [_ U].
  assert (S : 2 ^ (Z.pos (digits2_pos p) - 1) < 2 ^ Z.pos (digits2_pos q))
    by lia.
  apply Z.pow_lt_mono_r_iff in S; lia.
Qed.

(** Rounding a mantissa that is at least as long as the precision asks
    for yields a binary32 datum. *)
Lemma binary_round_aux_valid (s : bool) (m e : Z) (l : location) :
  0 <= m -> e <= fexp prec emax (Zdigits2 m + e) ->
  is_binary32 (binary_round_aux prec emax s m e l) = true.
Proof.
  intros Hm He. unfold binary_round_aux.
  destruct (shr_fexp_spec m e l Hm) as (M1 & E1 & D1).
  destruct (shr_fexp prec emax m e l) as [mrs' e'].
  cbn [fst snd] in M1, E1, D1.
  set (rne := round_nearest_even (shr_m mrs') (loc_of_shr_record mrs')).
  assert (R0 : 0 <= rne) by now apply round_nearest_even_nonneg.
  assert (RD : Zdigits2 (shr_m mrs') <= Zdigits2 rne
               <= Zdigits2 (shr_m mrs') + 1).
  { unfold rne.
    destruct (round_nearest_even_cases (shr_m mrs')
                (loc_of_shr_record mrs')) as [E | E]; rewrite E.
    - lia.
    - split; [ apply Zdigits2_le; lia | now apply Zdigits2_succ_le ]. }
  destruct (shr_fexp_spec rne e' loc_Exact R0) as (M2 & E2 & D2).
  destruct (shr_fexp prec emax rne e' loc_Exact) as [mrs'' e''].
  cbn [fst snd] in M2, E2, D2.
  destruct (shr_m mrs'') as [ | q | q]; try reflexivity.
  destruct (Z.leb_spec e'' (emax - prec)) as [B | B]; [ | reflexivity ].
  unfold is_binary32, valid_binary, bounded, canonical_mantissa.
  apply andb_true_intro. split; [ apply Z.eqb_eq | now apply Z.leb_le ].
  simpl Zdigits2 in D2.
  pose proof (Zdigits2_nonneg m) as Dm.
  unfold fexp, emin, prec, emax in *. lia.
Qed.

Lemma digits2_pos_iter_xO (m k : positive) :
  Z.pos (digits2_pos (Pos.iter xO m k)) = Z.pos (digits2_pos m) + Z.pos k.
Proof.
  induction k as [ | k IH] using Pos.peano_ind.
  - simpl. lia.
  - rewrite Pos.iter_succ. simpl digits2_pos. lia.
Qed.

Lemma binary_round_valid (s : bool) (m : positive) (e : Z) :
  is_binary32 (binary_round prec emax s m e) = true.
Proof.
  unfold binary_round, shl_align.
  destruct (fexp prec emax (Z.pos (digits2_pos m) + e) - e)
    as [ | k | k] eqn:Ek;
    apply binary_round_aux_valid; try lia; simpl Zdigits2.
  - lia.
  - lia.
  - rewrite digits2_pos_iter_xO.
    replace (Z.pos (digits2_pos m) + Z.pos k
             + fexp prec emax (Z.pos (digits2_pos m) + e))
      with (Z.pos (digits2_pos m) + e) by lia.
    lia.
Qed.

Lemma add_valid (x y : float) :
  is_binary32 x = true -> is_binary32 y = true ->
  is_binary32 (add x y) = true.
Proof.
  intros Vx Vy.
  destruct x as [[ | ] | [ | ] | | sx mx ex], y as [[ | ] | [ | ] | | sy my ey];
    try reflexivity; try assumption.
  unfold add, SFadd, binary_normalize.
  destruct (cond_Zopp sx _ + cond_Zopp sy _) as [ | p | p];
    [ reflexivity | apply binary_round_valid | apply binary_round_valid ].
Qed.

Lemma digits2_pos_mul_ge (m n : positive) :
  Z.pos (digits2_pos m) + Z.pos (digits2_pos n) - 1
  <= Z.pos (digits2_pos (m * n)).
Proof.
  destruct (digits2_pos_bounds m) as [Lm _].
  destruct (digits2_pos_bounds n) as [Ln _].
  destruct (digits2_pos_bounds (m * n)) as [_ U].
  rewrite Pos2Z.inj_mul in U.
  assert (Pm : 0 < 2 ^ (Z.pos (digits2_pos m) - 1))
    by (apply Z.pow_pos_nonneg; lia).
  assert (Pn : 0 < 2 ^ (Z.pos (digits2_pos n) - 1))
    by (apply Z.pow_pos_nonneg; lia).
  assert (S : 2 ^ (Z.pos (digits2_pos m) - 1 + (Z.pos (digits2_pos n) - 1))
              < 2 ^ Z.pos (digits2_pos (m * n))).
  { rewrite Z.pow_add_r by lia. nia. }
  apply Z.pow_lt_mono_r_iff in S; lia.
Qed.

Lemma mul_valid (x y : float) :
  is_binary32 x = true -> is_binary32 y = true ->
  is_binary32 (mul x y) = true.
Proof.
  destruct x as [sx | sx | | sx mx ex], y as [sy | sy | | sy my ey];
    try reflexivity.
  unfold is_binary32 at 1 2, valid_binary, bounded, canonical_mantissa.
  intros Vx Vy.
  apply andb_prop in Vx. destruct Vx as [Cx _]. apply Z.eqb_eq in Cx.
  apply andb_prop in Vy. destruct Vy as [Cy _]. apply Z.eqb_eq in Cy.
  unfold mul, SFmul. apply binary_round_aux_valid; [ lia | ].
  simpl Zdigits2. pose proof (digits2_pos_mul_ge mx my).
  unfold fexp, emin, prec, emax in *. lia.
Qed.

Lemma mul_self_overflow (x : float) :
  is_binary32 x = true -> leb two64 (fabsf x) = true ->
  mul x x = infinity.
Proof.
  destruct x as [s | s | | s m e]; try discriminate.
  - intros _ _. destruct s; reflexivity.
  - unfold is_binary32, valid_binary, bounded, canonical_mantissa.
    intros V H. apply andb_prop in V. destruct V as [C _].
    apply Z.eqb_eq in C. unfold fexp, emin, prec, emax in C.
    assert (D : 65 <= Z.pos (digits2_pos m) + e).
    { revert H. unfold leb, SFleb, two64. simpl fabsf.
      change (of_Z (2 ^ 64)) with (S754_finite false 8388608 41).
      unfold SFcompare.
      change (Pos.compare_cont Eq 8388608 m) with (Pos.compare 8388608 m).
      destruct (Z.compare_spec 41 e) as [E | E | E]; try discriminate.
      - destruct (Pos.compare_spec 8388608 m) as [M | M | M];
          try discriminate; intros _;
          pose proof (digits2_pos_bounds m) as [_ U];
          assert (2 ^ 23 < 2 ^ Z.pos (digits2_pos m)) as S
            by (change (2 ^ 23) with 8388608; lia);
          apply Z.pow_lt_mono_r_iff in S; lia.
      - intros _. lia. }
    unfold mul, SFmul. rewrite xorb_nilpotent.
    apply binary_round_aux_overflow. unfold emax.
    pose proof (digits2_pos_square m). lia.
Qed.

End Rounding.

(** ** [findMaxScale] *)

Module MaxScaleFacts.
Import F32 F32Facts Rounding.

Lemma add_overflowed_l (x y : float) :
  overflowed x -> overflowed (add x y).
Proof.
  intros [-> | ->]; [ left; reflexivity | ].
  destruct y as [s | [ | ] | | s m e]; (left + right); reflexivity.
Qed.

Lemma add_overflowed_r (x y : float) :
  overflowed y -> overflowed (add x y).
Proof. rewrite add_comm. apply add_overflowed_l. Qed.

Lemma div_two_overflowed (x : float) :
  overflowed x -> overflowed (div x (of_Z 2)).
Proof. intros [-> | ->]; (left + right); reflexivity. Qed.

Lemma mul_self_nonneg (x : float) :
  mul x x = nan \/ has_sign false (mul x x).
Proof.
  destruct x as [[ | ] | [ | ] | | s m e];
    try (right; reflexivity); try (left; reflexivity).
  right. unfold mul, SFmul. rewrite xorb_nilpotent.
  apply binary_round_aux_sign. lia.
Qed.

Lemma sum_squares_overflowed (x y : float) :
  mul x x = infinity \/ mul y y = infinity ->
  overflowed (add (mul x x) (mul y y)).
Proof.
  assert (K : forall u v, mul u u = infinity ->
                          overflowed (add (mul u u) (mul v v))).
  { intros u v ->. destruct (mul_self_nonneg v) as [-> | S].
    - left; reflexivity.
    - destruct (mul v v) as [s | s | | s m e]; simpl in S;
        try contradiction; subst; right; reflexivity. }
  intros [H | H]; [ | rewrite add_comm ]; apply K; assumption.
Qed.

Lemma huge_sum_squares (x y : float) :
  huge x \/ huge y -> overflowed (add (mul x x) (mul y y)).
Proof.
  intros H. apply sum_squares_overflowed.
  destruct H as [[V H] | [V H]]; [ left | right ];
    apply mul_self_overflow; assumption.
Qed.

(** Once the trace has overflowed the eigenvalue is not finite and the
    result is [0]. *)
Lemma max_scale_of_overflowed (a b c d : float) :
  overflowed (add (add (mul a a) (mul b b)) (add (mul c c) (mul d d))) ->
  max_scale_of binary32_arith a b c d = zero.
Proof.
  intros HT. unfold max_scale_of, max_eigenvalue_root.
  cbn [ar_add ar_sub ar_mul ar_div ar_sqrt ar_of_Z ar_isfinite ar_ltb
       binary32_arith].
  set (T := add (add (mul a a) (mul b b)) (add (mul c c) (mul d d))) in *.
  set (root := sqrtf (sub _ _)).
  destruct (div_two_overflowed _ (add_overflowed_l T root HT)) as [-> | ->];
    reflexivity.
Qed.

Lemma leb_zero_not_below (x : float) :
  leb zero x = true -> is_nan x = false /\ ltb x zero = false.
Proof.
  destruct x as [s | [ | ] | | [ | ] m e]; simpl; try discriminate;
    split; reflexivity.
Qed.

Lemma max_scale_of_nonneg (a b c d : float) :
  leb zero (max_scale_of binary32_arith a b c d) = true.
Proof.
  unfold max_scale_of, max_eigenvalue_root.
  cbn [ar_add ar_sub ar_mul ar_div ar_sqrt ar_of_Z ar_isfinite ar_ltb
       binary32_arith].
  set (ev := div _ (of_Z 2)).
  destruct (isfinite ev) eqn:Fin; [ | reflexivity ].
  destruct (ltb ev (of_Z 0)) eqn:Neg; [ reflexivity | ].
  apply sqrtf_nonneg; assumption.
Qed.

End MaxScaleFacts.

(** ** The scale extraction in exact arithmetic *)

Module ExactScale.
Import Mat2D.
Local Open Scope R_scope.


(** Over the reals nothing overflows and the eigenvalue is never
    negative: the guards of [max_scale_of] do not fire. *)
Lemma exact_max_scale (a b c d : R) :
  findMaxScale_exact a b c d
  = sqrt ((a * a + b * b + (c * c + d * d)
           + sqrt ((a * a + b * b - (c * c + d * d))
                   * (a * a + b * b - (c * c + d * d))
                   + 4 * ((a * c + b * d) * (a * c + b * d)))) / 2).
Proof.
  unfold findMaxScale_exact, max_scale_of, max_eigenvalue_root.
  cbn [ar_add ar_sub ar_mul ar_div ar_sqrt ar_of_Z ar_isfinite ar_ltb
       exact_arith].
  match goal with
  | |- context [sqrt (?T * ?T - 4 * ?D)] =>
      replace (T * T - 4 * D)
        with ((a * a + b * b - (c * c + d * d))
              * (a * a + b * b - (c * c + d * d))
              + 4 * ((a * c + b * d) * (a * c + b * d))) by ring
  end.
  set (root := sqrt (_ + _)).
  assert (Hroot : 0 <= root) by apply sqrt_pos.
  destruct (Rlt_dec _ 0) as [Hneg | _]; [ | reflexivity ].
  exfalso. nra.
Qed.





(** A rotation has maximal scale [1] and the scale [(1/4, 1/2)] turned by
    a right angle has maximal scale [1/2]. *)
Lemma exact_rotation (theta : R) :
  findMaxScale_exact (cos theta) (sin theta) (- sin theta) (cos theta) = 1.
Proof.
  rewrite exact_max_scale.
  pose proof (sin2_cos2 theta) as H. unfold Rsqr in H.
  replace (cos theta * cos theta + sin theta * sin theta
           - (- sin theta * - sin theta + cos theta * cos theta))
    with 0 by ring.
  replace (cos theta * - sin theta + sin theta * cos theta) with 0 by ring.
  replace (0 * 0 + 4 * (0 * 0)) with 0 by ring.
  rewrite sqrt_0.
  replace ((cos theta * cos theta + sin theta * sin theta
            + (- sin theta * - sin theta + cos theta * cos theta) + 0) / 2)
    with 1 by (field_simplify; lra).
  apply sqrt_1.
Qed.

Lemma exact_rot90_scale :
  findMaxScale_exact 0 (1 / 2) (- (1 / 4)) 0 = 1 / 2.
Proof.
  rewrite exact_max_scale.
  assert (E : sqrt ((0 * 0 + 1 / 2 * (1 / 2)
                     - (- (1 / 4) * - (1 / 4) + 0 * 0))
                    * (0 * 0 + 1 / 2 * (1 / 2)
                       - (- (1 / 4) * - (1 / 4) + 0 * 0))
                    + 4 * ((0 * - (1 / 4) + 1 / 2 * 0)
                           * (0 * - (1 / 4) + 1 / 2 * 0)))
              = 3 / 16)
    by (apply sqrt_lem_1; lra).
  rewrite E. apply sqrt_lem_1; lra.
Qed.

End ExactScale.

Module MaxScale.
Import Mat2D MaxScaleFacts.




(** Rounding of the squares: [Scale(36, 53)] comes out one unit in the
    last place short of [53]. *)
Lemma findMaxScale_scale_rounding :
  findMaxScale (fromScale (F32.of_Z 36) (F32.of_Z 53))
  = S754_finite false 13893631 (-18)
  /\ F32.of_Z 53 = S754_finite false 13893632 (-18).
Proof. split; vm_compute; reflexivity. Qed.

(** Cancellation in the discriminant: on the binary32 matrix
    [(-0.97029573, 0.24192201, -0.24192208, -0.97029573)], a rotation up
    to rounding whose first column has squared norm [1], the discriminant
    [T^2 - 4 det S] comes out negative, its square root is NaN and the
    result is the fallback [0]. *)
Lemma findMaxScale_cancellation :
  let m := Mat (S754_finite true 16278861 (-24))
               (S754_finite false 16235111 (-26))
               (S754_finite true 16235116 (-26))
               (S754_finite true 16278861 (-24)) F32.zero F32.zero in
  F32.add (F32.mul (a m) (a m)) (F32.mul (b m) (b m)) = F32.one
  /\ findMaxScale m = F32.zero.
Proof. split; vm_compute; reflexivity. Qed.

(** C2. [findMaxScale] is never negative and never NaN, whatever the
    matrix; when an entry of the linear block has magnitude [2^64] or more
    (so also around [1e36] and beyond), a square overflows and the result
    is exactly [0]; the matrix [big] of the test case is such a matrix. *)
Theorem findMaxScale_nonneg_overflow_zero :
  (forall m : Mat2D,
      F32.leb F32.zero (findMaxScale m) = true /\
      F32.is_nan (findMaxScale m) = false /\
      F32.ltb (findMaxScale m) F32.zero = false)
  /\ (forall m : Mat2D,
      F32.huge (a m) \/ F32.huge (b m) \/ F32.huge (c m) \/ F32.huge (d m) ->
      findMaxScale m = F32.zero)
  /\ (F32.huge (a big) /\ F32.huge (b big) /\ F32.huge (c big) /\
      F32.huge (d big) /\ findMaxScale big = F32.zero).
Proof.
  split; [ | split ].
  - intros m. unfold findMaxScale.
    pose proof (max_scale_of_nonneg (a m) (b m) (c m) (d m)) as H.
    split; [ exact H | ]. apply leb_zero_not_below. exact H.
  - intros m H. unfold findMaxScale. apply max_scale_of_overflowed.
    destruct H as [H | [H | [H | H]]].
    + apply add_overflowed_l, huge_sum_squares. now left.
    + apply add_overflowed_l, huge_sum_squares. now right.
    + apply add_overflowed_r, huge_sum_squares. now left.
    + apply add_overflowed_r, huge_sum_squares. now right.
  - repeat split; vm_compute; reflexivity.
Qed.

Lemma findMaxScale_nonneg_overflow_zero_witness :
  findMaxScale (Mat F32.two64 F32.one F32.zero F32.one F32.zero F32.zero)
  = F32.zero.
Proof.
  apply (proj1 (proj2 findMaxScale_nonneg_overflow_zero)).
  left. split; vm_compute; reflexivity.
Defined.

(** C3. [findMaxScale] reads the linear part [(a, b, c, d)] only: two
    matrices that agree on it have the same maximal scale whatever their
    translations, NaN and infinities included; the matrix
    [(0, 3, 6, 0, NaN, Inf)] has maximal scale [6] and every pure
    translation has maximal scale [1]. *)
Theorem findMaxScale_ignores_translation :
  (forall m1 m2 : Mat2D,
      a m1 = a m2 -> b m1 = b m2 -> c m1 = c m2 -> d m1 = d m2 ->
      findMaxScale m1 = findMaxScale m2)
  /\ findMaxScale transpose = F32.of_Z 6
  /\ (forall x y : F32.float, findMaxScale (fromTranslate x y) = F32.one)
  /\ findMaxScale translate = F32.one.
Proof.
  split; [ | split; [ | split ] ].
  - intros m1 m2 Ea Eb Ec Ed. unfold findMaxScale.
    now rewrite Ea, Eb, Ec, Ed.
  - vm_compute. reflexivity.
  - intros x y. vm_compute. reflexivity.
  - vm_compute. reflexivity.
Qed.

Lemma findMaxScale_ignores_translation_witness :
  findMaxScale transpose
  = findMaxScale (Mat (F32.of_Z 0) (F32.of_Z 3) (F32.of_Z 6) (F32.of_Z 0)
                      F32.zero F32.zero).
Proof.
  apply (proj1 findMaxScale_ignores_translation); vm_compute; reflexivity.
Defined.

End MaxScale.

(** ** Rotations *)

Module Rotation.
Import F32 F32Facts Rounding Mat2D.

(** The Gram matrix of a rotation is [u I] with [u] the squared norm of
    the pair of cosine and sine, the off-diagonal entry cancels exactly. *)
Lemma rotation_gram (c s : float) :
  isfinite (mul c s) = true ->
  max_scale_of binary32_arith c s (neg s) c
  = max_eigenvalue_root binary32_arith
      (add (mul c c) (mul s s)) zero (add (mul c c) (mul s s)).
Proof.
  intros Fin. unfold max_scale_of.
  cbn [ar_add ar_mul binary32_arith].
  rewrite mul_neg_r, (mul_comm s c), (add_neg_self _ Fin).
  rewrite mul_neg_neg, (add_comm (mul s s) (mul c c)).
  reflexivity.
Qed.

Lemma unit_norm_below_one :
  holds_from
    (fun m => math.nearly_equal one
                (max_eigenvalue_root binary32_arith
                   (S754_finite false m (-24)) zero
                   (S754_finite false m (-24)))
                math.EPSILON)
    4096 16773120 = true.
Proof. vm_compute. reflexivity. Qed.

Lemma unit_norm_above_one :
  holds_from
    (fun m => math.nearly_equal one
                (max_eigenvalue_root binary32_arith
                   (S754_finite false m (-23)) zero
                   (S754_finite false m (-23)))
                math.EPSILON)
    2049 8388608 = true.
Proof. vm_compute. reflexivity. Qed.

Lemma unit_norm_bounds :
  sub one math.EPSILON = S754_finite false 16773120 (-24)
  /\ add one math.EPSILON = S754_finite false 8390656 (-23).
Proof. split; vm_compute; reflexivity. Qed.

(** The binary32 data between [1 - EPSILON] and [1 + EPSILON]. *)
Lemma unit_norm_range (u : float) :
  is_binary32 u = true ->
  leb (sub one math.EPSILON) u = true ->
  leb u (add one math.EPSILON) = true ->
  exists m : positive,
    (u = S754_finite false m (-24) /\ 16773120 <= Z.pos m < 16773120 + 4096)
    \/ (u = S754_finite false m (-23) /\ 8388608 <= Z.pos m < 8388608 + 2049).
Proof.
  destruct unit_norm_bounds as [-> ->].
  destruct u as [s | s | | s m e]; try discriminate;
    try (destruct s; discriminate).
  destruct s; [ discriminate | ].
  unfold is_binary32, valid_binary, bounded, canonical_mantissa.
  intros V H1 H2. apply andb_prop in V. destruct V as [C _].
  apply Z.eqb_eq in C. unfold fexp, emin, prec, emax in C.
  apply leb_finite_pos in H1. apply leb_finite_pos in H2.
  pose proof (digits2_pos_bounds m) as [L U].
  exists m.
  assert (E : e = -24 \/ e = -23) by lia.
  destruct E as [-> | ->].
  - left. split; [ reflexivity | ].
    replace (Z.pos (digits2_pos m)) with 24 in U by lia.
    change (2 ^ 24) with 16777216 in U. lia.
  - right. split; [ reflexivity | ].
    replace (Z.pos (digits2_pos m) - 1) with 23 in L by lia.
    change (2 ^ 23) with 8388608 in L. lia.
Qed.

Lemma unit_norm_root (u : float) :
  is_binary32 u = true ->
  leb (sub one math.EPSILON) u = true ->
  leb u (add one math.EPSILON) = true ->
  math.nearly_equal one (max_eigenvalue_root binary32_arith u zero u)
    math.EPSILON = true.
Proof.
  intros V H1 H2.
  destruct (unit_norm_range u V H1 H2) as [m [[-> R] | [-> R]]].
  - apply (holds_from_sound _ _ _ unit_norm_below_one m R).
  - apply (holds_from_sound _ _ _ unit_norm_above_one m R).
Qed.

Lemma rotation_unit (c s tx ty : float) :
  unit_pair c s ->
  math.nearly_equal one (findMaxScale (Mat c s (neg s) c tx ty))
    math.EPSILON = true.
Proof.
  intros (Vc & Vs & Hc & Hs & L & U).
  unfold findMaxScale. cbn [Mat2D.a Mat2D.b Mat2D.c Mat2D.d].
  rewrite rotation_gram by (apply mul_small_finite; assumption).
  apply unit_norm_root; try assumption.
  apply add_valid; apply mul_valid; assumption.
Qed.

Lemma quarter_turn_scale_range :
  holds_from
    (fun m => same (findMaxScale
                      (multiply (fromScale quarter half)
                         (Mat (S754_finite true m (-48)) one (neg one)
                              (S754_finite true m (-48)) zero zero)))
                   half)
    1972 12302708 = true.
Proof. vm_compute. reflexivity. Qed.

Lemma cos_half_pi_bounds :
  of_dec (-43715) 12 = S754_finite true 12304679 (-48)
  /\ of_dec (-43708) 12 = S754_finite true 12302708 (-48).
Proof. split; vm_compute; reflexivity. Qed.

Lemma near_cos_half_pi_range (x : float) :
  near_cos_half_pi x ->
  exists m : positive,
    x = S754_finite true m (-48) /\
    12302708 <= Z.pos m < 12302708 + 1972.
Proof.
  unfold near_cos_half_pi. destruct cos_half_pi_bounds as [-> ->].
  destruct x as [s | s | | s m e]; intros [H1 H2]; try discriminate;
    try (destruct s; discriminate).
  destruct s; [ | discriminate ].
  apply leb_finite_neg in H1. apply leb_finite_neg in H2.
  exists m. assert (e = -48) by lia. subst e.
  split; [ reflexivity | lia ].
Qed.

Lemma quarter_turn_scale (x : float) :
  near_cos_half_pi x ->
  findMaxScale (multiply (fromScale quarter half)
                  (Mat x one (neg one) x zero zero)) = half.
Proof.
  intros H. destruct (near_cos_half_pi_range x H) as (m & -> & R).
  apply same_eq.
  apply (holds_from_sound _ _ _ quarter_turn_scale_range m R).
Qed.

Section Libm.
Variables sinf cosf : float -> float.

(** C5. For every angle, [findMaxScale] of the rotation is within
    [EPSILON = 1/4096] of [1], and [findMaxScale] of [Scale(1/4, 1/2)]
    composed with the rotation by [PI / 2] is exactly [1/2].  [sinf] and
    [cosf] are those of the C library: the first half holds at every angle
    for which they return binary32 data of magnitude at most [1] and of
    squared norm within [EPSILON] of [1], the second half when they
    return, for [PI / 2], the sine [1] and a cosine between [-4.3715e-08]
    and [-4.3708e-08]. *)
Theorem findMaxScale_rotation :
  (forall rad : float,
      unit_pair (cosf rad) (sinf rad) ->
      math.nearly_equal one (findMaxScale (fromRotation sinf cosf rad))
        math.EPSILON = true)
  /\ (sinf (div math.PI two) = one ->
      near_cos_half_pi (cosf (div math.PI two)) ->
      findMaxScale (rot90Scale sinf cosf) = half).
Proof.
  split.
  - intros rad H. unfold fromRotation. apply rotation_unit, H.
  - intros Hs Hc. unfold rot90Scale, fromRotation. rewrite Hs.
    apply quarter_turn_scale, Hc.
Qed.
End Libm.

(** A C library that returns the correctly rounded cosine and sine of
    [PI / 2]. *)
Lemma findMaxScale_rotation_witness :
  math.nearly_equal one
    (findMaxScale (fromRotation (fun _ => one) (fun _ => cos_half_pi)
                     (div math.PI two)))
    math.EPSILON = true
  /\ findMaxScale (rot90Scale (fun _ => one) (fun _ => cos_half_pi)) = half.
Proof.
  split.
  - apply (proj1 (findMaxScale_rotation (fun _ => one)
                    (fun _ => cos_half_pi))).
    repeat split; vm_compute; reflexivity.
  - apply (proj2 (findMaxScale_rotation (fun _ => one)
                    (fun _ => cos_half_pi))).
    + reflexivity.
    + split; vm_compute; reflexivity.
Defined.

End Rotation.

(** ** The stretch of unit vectors *)

Module Stretch.
Import Mat2D MaxScaleFacts ExactScale.





End Stretch.

(** * Further properties of the headers *)

(** ** The order of binary32 *)

Module F32Order.
Import F32 F32Facts.

Lemma leb_refl (x : float) : is_nan x = false -> leb x x = true.
Proof.
  intros H. rewrite leb_lt_or_eq, eqb_refl_nan, H. apply orb_true_r.
Qed.

Lemma lt_le (x y : float) : ltb x y = true -> leb x y = true.
Proof. intros H. now rewrite leb_lt_or_eq, H. Qed.

Lemma not_lt_le (x y : float) :
  is_nan x = false -> is_nan y = false -> ltb y x = false -> leb x y = true.
Proof.
  destruct x as [sx | sx | | sx mx ex], y as [sy | sy | | sy my ey];
    float_cases.
Qed.

Lemma le_not_lt (x y : float) : leb x y = true -> ltb y x = false.
Proof.
  destruct x as [sx | sx | | sx mx ex], y as [sy | sy | | sy my ey];
    float_cases.
Qed.

Lemma lt_not_lt (x y : float) : ltb x y = true -> ltb y x = false.
Proof. intros H. apply le_not_lt, lt_le, H. Qed.

Lemma leb_trans (x y z : float) :
  leb x y = true -> leb y z = true -> leb x z = true.
Proof.
  destruct x as [sx | sx | | sx mx ex], y as [sy | sy | | sy my ey],
    z as [sz | sz | | sz mz ez]; float_cases.
Qed.

Lemma eqb_sym (x y : float) : eqb x y = eqb y x.
Proof.
  destruct x as [sx | sx | | sx mx ex], y as [sy | sy | | sy my ey];
    float_cases.
Qed.

Lemma eqb_le (x y : float) : eqb x y = true -> leb x y = true.
Proof. intros H. rewrite leb_lt_or_eq, H. apply orb_true_r. Qed.

Lemma eqb_not_nan (x y : float) :
  eqb x y = true -> is_nan x = false /\ is_nan y = false.
Proof. intros H. apply leb_not_nan, eqb_le, H. Qed.

Lemma ltb_zero_neg (x : float) :
  ltb x zero = true -> ltb (neg x) zero = false.
Proof. destruct x as [[ | ] | [ | ] | | [ | ] m e]; cbv; congruence. Qed.

End F32Order.

(** ** [any], [all] and [isnan] *)

Module Reduce.
Import simd simdFacts.

Lemma truthy_iff (v : int32_t) : truthy v = true <-> int32_val v <> 0.
Proof.
  unfold truthy. destruct (Z.eqb_spec (int32_val v) 0); simpl; split;
    congruence.
Qed.

Lemma any_exists (x : gvec int32_t) :
  any x = true <-> exists v, In v x /\ int32_val v <> 0.
Proof.
  induction x as [ | v x IH]; simpl.
  - split; [ discriminate | intros (v & [] & _) ].
  - destruct (truthy v) eqn:Tv.
    + split; [ intros _ | reflexivity ].
      exists v. split; [ now left | now apply truthy_iff ].
    + rewrite IH. split.
      * intros (w & Hw & Nz). exists w. split; [ now right | assumption ].
      * intros (w & [-> | Hw] & Nz).
        -- apply truthy_iff in Nz. congruence.
        -- exists w. split; assumption.
Qed.

Lemma any_of_bool (l : list bool) : any (map of_bool l) = existsb (fun b => b) l.
Proof.
  induction l as [ | b l IH]; simpl; [ reflexivity | ].
  rewrite truthy_of_bool, IH. now destruct b.
Qed.

Lemma compl_of_bool (l : list bool) :
  vec_compl (map of_bool l) = map of_bool (map negb l).
Proof.
  unfold vec_compl. rewrite !map_map. apply map_ext.
  intros [ | ]; reflexivity.
Qed.

Lemma any_builtin_any (x : gvec int32_t) : any_builtin x = any x.
Proof.
  unfold any_builtin, reduce_or, truthy.
  induction x as [ | v x IH]; cbn [fold_right any int32_val];
    [ reflexivity | ].
  rewrite <- IH. unfold truthy. cbn [int32_val].
  set (acc := fold_right _ 0 x).
  destruct (Z.eqb_spec (int32_val v) 0) as [E | Ne]; cbn [negb].
  - now rewrite E, Z.lor_0_l.
  - destruct (Z.eqb_spec (Z.lor (int32_val v) acc) 0) as [E | _];
      [ | reflexivity ].
    apply Z.lor_eq_0_iff in E. now destruct E.
Qed.

Lemma reduce_and_of_bool (l : list bool) :
  reduce_and (map of_bool l) = of_bool (forallb (fun b => b) l).
Proof.
  unfold reduce_and.
  induction l as [ | b l IH]; cbn [map fold_right forallb];
    [ reflexivity | ].
  apply (f_equal int32_val) in IH. cbn [int32_val] in IH. rewrite IH.
  destruct b, (forallb (fun b => b) l); reflexivity.
Qed.

(** X1. [any(x)] is true exactly when some lane of [x] is not [0], on
    the path of the loop and on the path of [__builtin_reduce_or] alike;
    in particular it is false of the vector of no lane, and on the
    outcome of a lane-wise comparison it is true exactly when the
    comparison holds in some lane. *)
Theorem any_some_lane :
  (forall x : gvec int32_t,
      any x = true <-> exists v, In v x /\ int32_val v <> 0)
  /\ (forall x : gvec int32_t, any_builtin x = any x)
  /\ (forall l : list bool, any (map of_bool l) = existsb (fun b => b) l)
  /\ (forall (a b : gvec F32.float),
      any (vec_lt a b) = true <->
      exists x y, In (x, y) (combine a b) /\ F32.ltb x y = true).
Proof.
  split; [ exact any_exists | ].
  split; [ exact any_builtin_any | split; [ exact any_of_bool | ] ].
  intros a b. unfold vec_lt, zip2.
  rewrite <- (map_map (fun p => lane_lt (fst p) (snd p)) of_bool).
  rewrite any_of_bool, existsb_exists. split.
  - intros (t & Ht & Hid). apply in_map_iff in Ht.
    destruct Ht as ([x y] & <- & Hin). exists x, y. split; assumption.
  - intros (x & y & Hin & Hlt). exists true. split; [ | reflexivity ].
    apply in_map_iff. exists (x, y). split; assumption.
Qed.

(** X2. [all(x)], on the path of [!any(~x)], is true exactly when every
    lane of [x] is [~0]; on a vector of booleans (the outcome of a
    lane-wise comparison) it is true exactly when every lane is true, it
    is then [!any(!x)], and the path of [__builtin_reduce_and] returns
    the same.  The two paths differ on lanes that are neither [0] nor
    [~0]: of the lanes [(1, ~0)] the first path says false, the builtin
    true. *)
Theorem all_every_lane :
  (forall x : gvec int32_t,
      all x = true <-> forall v, In v x -> int32_val v = -1)
  /\ (forall l : list bool, all (map of_bool l) = forallb (fun b => b) l)
  /\ (forall l : list bool,
      all (map of_bool l) = negb (any (vec_not (map of_bool l))))
  /\ (forall l : list bool, all_builtin (map of_bool l) = all (map of_bool l))
  /\ (all [Int32 1; Int32 (-1)] = false /\
      all_builtin [Int32 1; Int32 (-1)] = true).
Proof.
  assert (B : forall l : list bool,
             all (map of_bool l) = forallb (fun b => b) l).
  { intros l. unfold all. rewrite compl_of_bool, any_of_bool.
    induction l as [ | b l IH]; simpl; [ reflexivity | ].
    rewrite negb_orb, IH. now destruct b. }
  split; [ | split; [ exact B | split; [ | split; [ | now split ] ] ] ].
  - intros x. unfold all. rewrite negb_true_iff.
    split.
    + intros H v Hv.
      destruct (Z.eq_dec (int32_val v) (-1)) as [ | Ne]; [ assumption | ].
      exfalso. assert (A : any (vec_compl x) = true).
      { apply any_exists. exists (Int32 (Z.lnot (int32_val v))). split.
        - unfold vec_compl. apply in_map_iff. exists v. now split.
        - simpl. unfold Z.lnot. lia. }
      congruence.
    + intros H. destruct (any (vec_compl x)) eqn:A; [ | reflexivity ].
      apply any_exists in A. destruct A as (w & Hw & Nz).
      unfold vec_compl in Hw. apply in_map_iff in Hw.
      destruct Hw as (v & <- & Hv). simpl in Nz.
      rewrite (H v Hv) in Nz. now contradiction Nz.
  - intros l. unfold all. rewrite compl_of_bool. f_equal. f_equal.
    unfold vec_not. rewrite !map_map. apply map_ext.
    intros [ | ]; reflexivity.
  - intros l. rewrite B. unfold all_builtin.
    rewrite reduce_and_of_bool. apply truthy_of_bool.
Qed.

(** X3. [isnan] of a vector of integers flags no lane, and [isnan] of a
    vector of [float]s flags exactly the NaN lanes: [any(isnan(x))] is
    true exactly when some lane is NaN. *)
Theorem isnan_lanes :
  (forall x : gvec int32_t, any (isnan x) = false)
  /\ (forall x : gvec uint32_t, any (isnan x) = false)
  /\ (forall x : gvec F32.float,
      isnan x = map (fun v => of_bool (F32.is_nan v)) x)
  /\ (forall x : gvec F32.float,
      any (isnan x) = true <-> exists v, In v x /\ F32.is_nan v = true).
Proof.
  assert (K : forall (A : Type) (x : gvec A), any (splat x FALSE) = false).
  { intros A x. unfold splat. induction x; simpl; auto. }
  assert (F : forall x : gvec F32.float,
             isnan x = map (fun v => of_bool (F32.is_nan v)) x).
  { intros x. unfold isnan, vec_not, vec_eq, zip2. simpl.
    induction x as [ | v x IH]; simpl; [ reflexivity | ].
    rewrite IH, truthy_of_bool. unfold lane_eq. simpl.
    now rewrite F32Facts.eqb_refl_nan, negb_involutive. }
  split; [ intros x; apply K | ].
  split; [ intros x; apply K | ].
  split; [ exact F | ].
  intros x. rewrite F.
  rewrite <- (map_map F32.is_nan of_bool), any_of_bool, existsb_exists.
  split.
  - intros (t & Ht & Hid). apply in_map_iff in Ht.
    destruct Ht as (v & <- & Hin). exists v. split; assumption.
  - intros (v & Hin & Hn). exists true. split; [ | reflexivity ].
    apply in_map_iff. exists v. split; assumption.
Qed.

End Reduce.

(** ** [min], [max] and [clamp] on ordered lanes *)

Module Ordered.
Import simd simdFacts.

(** One lane of [min] and [max] at an integral element type, where
    [isnan] is no test. *)
Lemma lane_min_int32 (a b : gvec int32_t) (i : nat) (x y : Z) :
  nth_error a i = Some (Int32 x) -> nth_error b i = Some (Int32 y) ->
  nth_error (min a b) i = Some (Int32 (Z.min x y)) /\
  nth_error (max a b) i = Some (Int32 (Z.max x y)).
Proof.
  intros Ha Hb. unfold min, max, if_then_else, vec_or, vec_lt, isnan.
  cbn [lane_is_floating_point Lane_int32].
  split.
  - erewrite lane_zip3; try eassumption.
    2:{ eapply lane_zip2; [ eapply lane_zip2; eassumption
                          | eapply lane_splat; eassumption ]. }
    rewrite !truthy_of_bool. cbn. rewrite orb_false_r.
    destruct (Z.ltb_spec y x); f_equal; f_equal; lia.
  - erewrite lane_zip3; try eassumption.
    2:{ eapply lane_zip2; [ eapply lane_zip2; eassumption
                          | eapply lane_splat; eassumption ]. }
    rewrite !truthy_of_bool. cbn. rewrite orb_false_r.
    destruct (Z.ltb_spec x y); f_equal; f_equal; lia.
Qed.

(** X4. On [int32_t] lanes [simd::min] and [simd::max] are the minimum
    and the maximum of the two integers, whichever the order of the
    arguments, and [clamp(x, lo, hi)] is [min(max(lo, x), hi)] computed
    on the integers. *)
Theorem int_min_max (a b : gvec int32_t) (i : nat) (x y : Z) :
  nth_error a i = Some (Int32 x) -> nth_error b i = Some (Int32 y) ->
  nth_error (min a b) i = Some (Int32 (Z.min x y)) /\
  nth_error (max a b) i = Some (Int32 (Z.max x y)) /\
  nth_error (min b a) i = nth_error (min a b) i /\
  nth_error (max b a) i = nth_error (max a b) i /\
  (forall (c : gvec int32_t) (z : Z),
      nth_error c i = Some (Int32 z) ->
      nth_error (clamp a b c) i = Some (Int32 (Z.min (Z.max y x) z))).
Proof.
  intros Ha Hb.
  destruct (lane_min_int32 a b i x y Ha Hb) as [Hmin Hmax].
  destruct (lane_min_int32 b a i y x Hb Ha) as [Hmin' Hmax'].
  repeat split; try assumption.
  - now rewrite Hmin, Hmin', Z.min_comm.
  - now rewrite Hmax, Hmax', Z.max_comm.
  - intros c z Hc. unfold clamp.
    apply (lane_min_int32 (max b a) c i (Z.max y x) z); assumption.
Qed.

Lemma int_min_max_witness :
  nth_error (min [Int32 3; Int32 (-7)] [Int32 5; Int32 2]) 1%nat
  = Some (Int32 (Z.min (-7) 2)).
Proof.
  apply (int_min_max [Int32 3; Int32 (-7)] [Int32 5; Int32 2] 1%nat (-7) 2
           eq_refl eq_refl).
Defined.

Section FloatLanes.
Variables (a b : gvec F32.float) (i : nat) (x y : F32.float).
Hypothesis Ha : nth_error a i = Some x.
Hypothesis Hb : nth_error b i = Some y.
Hypothesis Nx : F32.is_nan x = false.
Hypothesis Ny : F32.is_nan y = false.

Lemma float_min_lower :
  exists r, nth_error (min a b) i = Some r /\
            (r = x \/ r = y) /\
            F32.leb r x = true /\ F32.leb r y = true /\
            (F32.eqb x y = true -> r = x).
Proof.
  rewrite (lane_min a b i x y Ha Hb), Nx, orb_false_r.
  destruct (F32.ltb y x) eqn:L.
  - exists y. repeat split; auto.
    + now apply F32Order.lt_le.
    + now apply F32Order.leb_refl.
    + intros E. apply F32Order.eqb_le, F32Order.le_not_lt in E.
      congruence.
  - exists x. repeat split; auto.
    + now apply F32Order.leb_refl.
    + now apply F32Order.not_lt_le.
Qed.

Lemma float_max_upper :
  exists r, nth_error (max a b) i = Some r /\
            (r = x \/ r = y) /\
            F32.leb x r = true /\ F32.leb y r = true /\
            (F32.eqb x y = true -> r = x).
Proof.
  rewrite (lane_max a b i x y Ha Hb), Nx, orb_false_r.
  destruct (F32.ltb x y) eqn:L.
  - exists y. repeat split; auto.
    + now apply F32Order.lt_le.
    + now apply F32Order.leb_refl.
    + intros E. rewrite F32Order.eqb_sym in E.
      apply F32Order.eqb_le, F32Order.le_not_lt in E. congruence.
  - exists x. repeat split; auto.
    + now apply F32Order.leb_refl.
    + now apply F32Order.not_lt_le.
Qed.
End FloatLanes.

End Ordered.

Module OrderedFloat.
Import simd simdFacts.

(** X5. In a lane where neither operand is NaN, [simd::min] returns one
    of the two operands, at most both, and [simd::max] one of the two, at
    least both; when the two compare equal (the zeros [+0.0] and [-0.0]
    do) the path of [if_then_else] returns the first operand in both, so
    [max(-0.0, +0.0)] is [-0.0] there.  In a lane where both are NaN the
    result is NaN. *)
Theorem float_min_max_bounds
  (a b : gvec F32.float) (i : nat) (x y : F32.float) :
  nth_error a i = Some x -> nth_error b i = Some y ->
  (F32.is_nan x = false -> F32.is_nan y = false ->
   exists lo hi,
     nth_error (min a b) i = Some lo /\ nth_error (max a b) i = Some hi /\
     (lo = x \/ lo = y) /\ (hi = x \/ hi = y) /\
     F32.leb lo x = true /\ F32.leb lo y = true /\
     F32.leb x hi = true /\ F32.leb y hi = true /\
     F32.leb lo hi = true /\
     (F32.eqb x y = true -> lo = x /\ hi = x)) /\
  (F32.is_nan x = true -> F32.is_nan y = true ->
   nth_error (min a b) i = Some F32.nan /\
   nth_error (max a b) i = Some F32.nan).
Proof.
  intros Ha Hb. split.
  - intros Nx Ny.
    destruct (Ordered.float_min_lower a b i x y Ha Hb Nx Ny)
      as (lo & Hlo & Olo & Lx & Ly & Elo).
    destruct (Ordered.float_max_upper a b i x y Ha Hb Nx Ny)
      as (hi & Hhi & Ohi & Ux & Uy & Ehi).
    exists lo, hi. repeat split; auto.
    apply F32Order.leb_trans with x; assumption.
  - intros Nx Ny. rewrite (lane_min a b i x y Ha Hb), (lane_max a b i x y Ha Hb).
    rewrite Nx, !orb_true_r. destruct y; try discriminate. split; reflexivity.
Qed.

Lemma float_min_max_bounds_witness :
  nth_error (max [F32.nzero] [F32.zero]) 0%nat = Some F32.nzero.
Proof.
  destruct (proj1 (float_min_max_bounds [F32.nzero] [F32.zero] 0%nat
                     F32.nzero F32.zero eq_refl eq_refl) eq_refl eq_refl)
    as (lo & hi & _ & Hhi & _ & _ & _ & _ & _ & _ & _ & E).
  destruct (E eq_refl) as [_ ->]. exact Hhi.
Defined.

Section ClampLanes.
Variables (vx vlo vhi : gvec F32.float) (i : nat) (x lo hi : F32.float).
Hypothesis Hx : nth_error vx i = Some x.
Hypothesis Hlo : nth_error vlo i = Some lo.
Hypothesis Hhi : nth_error vhi i = Some hi.
Hypothesis Hle : F32.leb lo hi = true.

Lemma clamp_in_bounds :
  exists r, nth_error (clamp vx vlo vhi) i = Some r /\
            (r = x \/ r = lo \/ r = hi) /\
            F32.leb lo r = true /\ F32.leb r hi = true.
Proof.
  destruct (F32Facts.leb_not_nan _ _ Hle) as [Nlo Nhi].
  rewrite (Clamp.lane_clamp vx vlo vhi i x lo hi Hx Hlo Hhi).
  rewrite Nlo, orb_false_r.
  destruct (F32.ltb lo x) eqn:Lx.
  - destruct (F32Facts.ltb_not_nan _ _ Lx) as [_ Nx].
    rewrite Nx, orb_false_r.
    destruct (F32.ltb hi x) eqn:Hx'.
    + exists hi. repeat split; auto. now apply F32Order.leb_refl.
    + exists x. repeat split; auto.
      * now apply F32Order.lt_le.
      * now apply F32Order.not_lt_le.
  - rewrite Nlo, orb_false_r, (F32Order.le_not_lt _ _ Hle).
    exists lo. repeat split; auto. now apply F32Order.leb_refl.
Qed.

Lemma clamp_of_in_range :
  F32.leb lo x = true -> F32.leb x hi = true ->
  exists r, nth_error (clamp vx vlo vhi) i = Some r /\
            F32.eqb r x = true /\
            (F32.ltb lo x = true -> r = x).
Proof.
  intros L U.
  destruct (F32Facts.leb_not_nan _ _ L) as [Nlo Nx].
  rewrite (Clamp.lane_clamp vx vlo vhi i x lo hi Hx Hlo Hhi).
  rewrite Nlo, orb_false_r.
  destruct (F32.ltb lo x) eqn:Lx.
  - rewrite Nx, orb_false_r, (F32Order.le_not_lt _ _ U).
    exists x. repeat split; auto.
    now rewrite F32Facts.eqb_refl_nan, Nx.
  - rewrite Nlo, orb_false_r, (F32Order.le_not_lt _ _ Hle).
    exists lo. repeat split; [ | discriminate ].
    rewrite F32Order.eqb_sym. now apply F32Facts.le_antisym_eqb.
Qed.
End ClampLanes.

(** X6. When [lo <= hi], [simd::clamp(x, lo, hi)] is, in every lane and
    for every [x], NaN included, one of [x], [lo] and [hi] and lies
    between [lo] and [hi]: unlike [std::clamp] it never returns NaN. *)
Theorem clamp_between
  (vx vlo vhi : gvec F32.float) (i : nat) (x lo hi : F32.float) :
  nth_error vx i = Some x -> nth_error vlo i = Some lo ->
  nth_error vhi i = Some hi -> F32.leb lo hi = true ->
  exists r, nth_error (clamp vx vlo vhi) i = Some r /\
            (r = x \/ r = lo \/ r = hi) /\
            F32.leb lo r = true /\ F32.leb r hi = true /\
            F32.is_nan r = false.
Proof.
  intros Hx Hlo Hhi Hle.
  destruct (clamp_in_bounds vx vlo vhi i x lo hi Hx Hlo Hhi Hle)
    as (r & Hr & O & L & U).
  exists r. repeat split; auto.
  now destruct (F32Facts.leb_not_nan _ _ L).
Qed.

Lemma clamp_between_witness :
  exists r, nth_error (clamp [F32.nan] [F32.three] [F32.five]) 0%nat = Some r /\
            (r = F32.nan \/ r = F32.three \/ r = F32.five) /\
            F32.leb F32.three r = true /\ F32.leb r F32.five = true /\
            F32.is_nan r = false.
Proof.
  apply (clamp_between [F32.nan] [F32.three] [F32.five] 0%nat
           F32.nan F32.three F32.five eq_refl eq_refl eq_refl).
  vm_compute. reflexivity.
Defined.

(** X7. A lane [x] with [lo <= x <= hi] is left as it is by
    [simd::clamp]: the result compares equal to [x], and is [x] itself
    when [lo < x]; at [x == lo] the path of [if_then_else] returns the
    bound [lo], so [clamp(-0.0, +0.0, 1)] is [+0.0] there. *)
Theorem clamp_in_range
  (vx vlo vhi : gvec F32.float) (i : nat) (x lo hi : F32.float) :
  nth_error vx i = Some x -> nth_error vlo i = Some lo ->
  nth_error vhi i = Some hi ->
  F32.leb lo x = true -> F32.leb x hi = true ->
  exists r, nth_error (clamp vx vlo vhi) i = Some r /\
            F32.eqb r x = true /\
            (F32.ltb lo x = true -> r = x) /\
            (F32.ltb lo x = false -> r = lo).
Proof.
  intros Hx Hlo Hhi L U.
  assert (Hle : F32.leb lo hi = true)
    by (apply F32Order.leb_trans with x; assumption).
  destruct (clamp_of_in_range vx vlo vhi i x lo hi Hx Hlo Hhi Hle L U)
    as (r & Hr & E & S).
  exists r. repeat split; auto.
  intros N. rewrite (Clamp.lane_clamp vx vlo vhi i x lo hi Hx Hlo Hhi) in Hr.
  destruct (F32Facts.leb_not_nan _ _ L) as [Nlo Nx].
  rewrite N, Nlo in Hr. simpl in Hr.
  rewrite (F32Order.le_not_lt _ _ Hle), Nlo in Hr. simpl in Hr. congruence.
Qed.

Lemma clamp_in_range_witness :
  exists r, nth_error (clamp [F32.nzero] [F32.zero] [F32.one]) 0%nat = Some r /\
            F32.eqb r F32.nzero = true /\
            (F32.ltb F32.zero F32.nzero = true -> r = F32.nzero) /\
            (F32.ltb F32.zero F32.nzero = false -> r = F32.zero).
Proof.
  apply (clamp_in_range [F32.nzero] [F32.zero] [F32.one] 0%nat
           F32.nzero F32.zero F32.one eq_refl eq_refl eq_refl);
    vm_compute; reflexivity.
Defined.

End OrderedFloat.

(** ** [abs] twice *)

Module AbsTwice.
Import simd simdFacts.

Lemma abs_map {T : Type} `{Lane T} (a : gvec T) :
  abs a
  = map (fun x => if lane_lt x (lane_of_int 0) then lane_neg x else x) a.
Proof.
  unfold abs, if_then_else, zip3, vec_lt, zip2, splat, vec_neg.
  induction a as [ | x a IH]; simpl; [ reflexivity | ].
  now rewrite truthy_of_bool, IH.
Qed.

Lemma float_abs_fixed (x : F32.float) :
  let r := if F32.ltb x (F32.of_Z 0) then F32.neg x else x in
  F32.ltb r (F32.of_Z 0) = false.
Proof.
  change (F32.of_Z 0) with F32.zero. simpl.
  destruct (F32.ltb x F32.zero) eqn:L; [ | assumption ].
  now apply F32Order.ltb_zero_neg.
Qed.

Lemma int32_abs_fixed (x : Z) :
  I32.in_range x ->
  let r := if x <? 0 then I32.wrap (- x) else x in
  I32.in_range r /\ (if r <? 0 then I32.wrap (- r) else r) = r /\
  (0 <= r \/ (x = I32.min_signed /\ r = I32.min_signed)).
Proof.
  unfold I32.in_range, I32.min_signed, I32.max_signed. intros Hx. simpl.
  destruct (Z.ltb_spec x 0) as [Neg | Pos].
  - destruct (Z.eq_dec x (- 2 ^ 31)) as [-> | Ne].
    + change (I32.wrap (- - 2 ^ 31)) with (- 2 ^ 31).
      repeat split; try lia; try (right; split; reflexivity).
    + rewrite Abs.wrap_in_range
        by (unfold I32.in_range, I32.min_signed, I32.max_signed; lia).
      destruct (Z.ltb_spec (- x) 0); repeat split; try lia.
  - destruct (Z.ltb_spec x 0); repeat split; try lia.
Qed.

Lemma int32_abs_lane_fixed (v : int32_t) :
  I32.in_range (int32_val v) ->
  let r := if lane_lt v (lane_of_int 0) then lane_neg v else v in
  (if lane_lt r (lane_of_int 0) then lane_neg r else r) = r /\
  (0 <= int32_val r \/ int32_val r = I32.min_signed).
Proof.
  destruct v as [x]. cbn [lane_lt lane_neg lane_of_int Lane_int32 int32_val].
  change (I32.wrap 0) with 0. intros Hx.
  destruct (int32_abs_fixed x Hx) as (R & F & S). cbv zeta in R, F, S.
  destruct (x <? 0) eqn:Lx; cbv zeta; cbn [int32_val].
  - split; [ | lia ].
    destruct (I32.wrap (- x) <? 0); [ | reflexivity ]. now rewrite F.
  - rewrite Lx. split; [ reflexivity | lia ].
Qed.

(** X8. [simd::abs] applied twice is [simd::abs]: on [float] vectors,
    where no lane of the result is below [0], and on vectors of [int32_t]
    lanes, where every lane of the result is non-negative but the one of
    [INT32_MIN], which stays [INT32_MIN]. *)
Theorem abs_idempotent :
  (forall a : gvec F32.float, abs (abs a) = abs a)
  /\ (forall (a : gvec F32.float) (r : F32.float),
      In r (abs a) -> F32.ltb r F32.zero = false)
  /\ (forall a : gvec int32_t,
      Forall (fun v => I32.in_range (int32_val v)) a ->
      abs (abs a) = abs a /\
      Forall (fun v => 0 <= int32_val v \/ int32_val v = I32.min_signed)
             (abs a)).
Proof.
  split; [ | split ].
  - intros a. rewrite !abs_map, map_map. apply map_ext. intros x.
    cbn [lane_lt lane_neg lane_of_int Lane_float].
    now rewrite (float_abs_fixed x).
  - intros a r Hr. rewrite abs_map in Hr. apply in_map_iff in Hr.
    destruct Hr as (x & <- & _). apply (float_abs_fixed x).
  - intros a Ha. rewrite !abs_map, map_map.
    induction Ha as [ | v a Hv Ha IH]; [ split; constructor | ].
    destruct (int32_abs_lane_fixed v Hv) as [F S].
    destruct IH as [IH1 IH2]. cbn [map]. split.
    + f_equal; [ exact F | exact IH1 ].
    + constructor; [ exact S | exact IH2 ].
Qed.

Lemma abs_idempotent_witness :
  abs (abs [Int32 I32.min_signed; Int32 (-4)])
  = abs [Int32 I32.min_signed; Int32 (-4)].
Proof.
  apply (proj2 (proj2 abs_idempotent) [Int32 I32.min_signed; Int32 (-4)]).
  repeat constructor; simpl; unfold I32.min_signed, I32.max_signed; lia.
Defined.

End AbsTwice.

(** ** [dot] and [cross] *)

Module Products.
Import simd simdFacts.

Lemma zip2_comm {A B : Type} (f : A -> A -> B) (a b : gvec A) :
  (forall x y, f x y = f y x) -> zip2 f a b = zip2 f b a.
Proof.
  intros Hf. unfold zip2. revert b.
  induction a as [ | x a IH]; intros [ | y b]; simpl; try reflexivity.
  now rewrite Hf, IH.
Qed.

Lemma dot_reduce {T : Type} `{Lane T} (a b : gvec T) :
  dot a b = reduce_add (vec_mul a b).
Proof.
  unfold dot.
  destruct (vec_mul a b) as [ | d0 [ | d1 [ | d2 [ | d3 [ | d4 d]]]]];
    reflexivity.
Qed.

Lemma wrap_add_wrap (u v : Z) :
  I32.wrap (I32.wrap u + I32.wrap v) = I32.wrap (u + v).
Proof.
  unfold I32.wrap, I32.modulus.
  change (2 ^ 31) with 2147483648. change (2 ^ 32) with 4294967296.
  f_equal. Z.div_mod_to_equations. lia.
Qed.

(** The exact sum of the products of the lanes. *)
Lemma int32_reduce_products (l : list (int32_t * int32_t)) :
  forall s : Z,
    fold_left lane_add (map (fun p => lane_mul (fst p) (snd p)) l)
              (Int32 (I32.wrap s))
    = Int32 (I32.wrap
               (s + fold_right Z.add 0
                      (map (fun p => int32_val (fst p) * int32_val (snd p))
                           l))).
Proof.
  induction l as [ | [x y] l IH]; intros s; simpl.
  - now rewrite Z.add_0_r.
  - rewrite wrap_add_wrap, IH. f_equal. f_equal. ring.
Qed.

(** X9. [simd::dot]: the formulas written out for the widths 2, 3 and 4
    are the loop of the general width; [dot(a, b)] is [dot(b, a)]; on
    [int32_t] lanes it is the exact sum of the products reduced modulo
    [2^32], whatever the order of the additions, which is what lets the
    integer overloads use a reduction; on [float] lanes the order
    matters: the lanes [(1e8, 1, -1e8)] against [(1, 1, 1)] give [0], and
    [1] once reordered. *)
Theorem dot_sum_of_products :
  (forall a b : gvec F32.float,
      dot a b = reduce_add (vec_mul a b) /\ dot a b = dot b a)
  /\ (forall a b : gvec int32_t,
      dot a b = dot b a /\
      dot a b
      = Int32 (I32.wrap
                 (fold_right Z.add 0
                    (map (fun p => int32_val (fst p) * int32_val (snd p))
                         (combine a b)))))
  /\ (dot [F32.f1e8; F32.one; F32.neg F32.f1e8] [F32.one; F32.one; F32.one]
      = F32.zero /\
      dot [F32.f1e8; F32.neg F32.f1e8; F32.one] [F32.one; F32.one; F32.one]
      = F32.one).
Proof.
  split; [ | split ].
  - intros a b. split; [ apply dot_reduce | ].
    rewrite !dot_reduce. unfold vec_mul. f_equal. apply zip2_comm.
    exact F32Facts.mul_comm.
  - intros a b. split.
    + rewrite !dot_reduce. unfold vec_mul. f_equal. apply zip2_comm.
      intros x y. cbn. now rewrite Z.mul_comm.
    + rewrite dot_reduce. unfold vec_mul, zip2, reduce_add.
      destruct (combine a b) as [ | [x y] l]; [ reflexivity | ].
      cbn [map]. change (lane_mul (fst (x, y)) (snd (x, y)))
        with (Int32 (I32.wrap (int32_val x * int32_val y))).
      rewrite int32_reduce_products. reflexivity.
  - split; vm_compute; reflexivity.
Qed.

End Products.

Module Subtraction.
Import F32 F32Facts Rounding.

Lemma binary_round_opp (s : bool) (m : positive) (e : Z) :
  binary_round prec emax (negb s) m e = neg (binary_round prec emax s m e).
Proof.
  unfold binary_round.
  destruct (shl_align m e _) as [mz ez]. apply binary_round_aux_opp.
Qed.

Lemma binary_normalize_opp (z e : Z) :
  z <> 0 ->
  binary_normalize prec emax (- z) e false
  = neg (binary_normalize prec emax z e false).
Proof.
  destruct z as [ | p | p]; intros Hz; [ contradiction | | ]; simpl.
  - apply (binary_round_opp false).
  - apply (binary_round_opp true).
Qed.

(** [y - x] is [-(x - y)], but where both are [+0.0]. *)
Lemma sub_antisym (x y : float) :
  sub y x = neg (sub x y) \/ (sub x y = zero /\ sub y x = zero).
Proof.
  destruct x as [[ | ] | [ | ] | | sx mx ex], y as [[ | ] | [ | ] | | sy my ey];
    try (left; reflexivity); try (right; split; reflexivity);
    try (destruct sy; left; reflexivity);
    try (destruct sx; left; reflexivity).
  unfold sub, SFsub. rewrite (Z.min_comm ey ex).
  set (cx := cond_Zopp sx _). set (cy := cond_Zopp sy _).
  replace (cy - cx) with (- (cx - cy)) by ring.
  destruct (Z.eq_dec (cx - cy) 0) as [E | Ne].
  - right. rewrite E. split; reflexivity.
  - left. now apply binary_normalize_opp.
Qed.

Lemma sub_self (p : float) : isfinite p = true -> sub p p = zero.
Proof.
  destruct p as [[ | ] | s | | s m e]; try discriminate; try reflexivity.
  intros _. unfold sub, SFsub. now rewrite Z.sub_diag.
Qed.



End Subtraction.

Module CrossProduct.
Import simd.

(** X10. [simd::cross(a, b)] is [a.x * b.y - a.y * b.x]; exchanging the
    arguments negates it, except that both orders give [+0.0] when the
    two products are equal; and [cross(a, a)] is [+0.0] whenever
    [a.x * a.y] is finite. *)
Theorem cross_antisymmetric (ax ay bx by' : F32.float) :
  cross [ax; ay] [bx; by'] = F32.sub (F32.mul ax by') (F32.mul ay bx) /\
  (cross [bx; by'] [ax; ay] = F32.neg (cross [ax; ay] [bx; by']) \/
   (cross [ax; ay] [bx; by'] = F32.zero /\
    cross [bx; by'] [ax; ay] = F32.zero)) /\
  (F32.isfinite (F32.mul ax ay) = true -> cross [ax; ay] [ax; ay] = F32.zero).
Proof.
  assert (E : forall u v w z,
             cross [u; v] [w; z] = F32.sub (F32.mul u z) (F32.mul v w))
    by reflexivity.
  rewrite !E. split; [ reflexivity | split ].
  - rewrite (F32Facts.mul_comm bx ay), (F32Facts.mul_comm by' ax).
    apply Subtraction.sub_antisym.
  - intros Fin. rewrite (F32Facts.mul_comm ay ax).
    now apply Subtraction.sub_self.
Qed.

Lemma cross_antisymmetric_witness :
  cross [F32.two; F32.three] [F32.two; F32.three] = F32.zero.
Proof.
  apply (proj2 (proj2 (cross_antisymmetric F32.two F32.three
                         F32.two F32.three))).
  vm_compute. reflexivity.
Defined.

End CrossProduct.

(** ** [math::nearly_zero], [math::nearly_equal], [math::ieee_float_divide] *)

Module Nearly.
Import F32 math.





End Nearly.

Module Division.
Import F32 math.

Lemma div_core_nonneg (m1 m2 : positive) (e1 e2 : Z) :
  0 <= fst (fst (SFdiv_core_binary prec emax (Z.pos m1) e1 (Z.pos m2) e2)).
Proof.
  unfold SFdiv_core_binary.
  set (s := e1 - e2 - _).
  set (m' := match s with Z0 => _ | Z.pos _ => _ | Z.neg _ => _ end).
  assert (Hm : 0 <= m').
  { unfold m'. destruct s; try lia. apply Z.shiftl_nonneg. lia. }
  pose proof (Z_div_mod m' (Z.pos m2) ltac:(lia)) as H.
  destruct (Z.div_eucl m' (Z.pos m2)) as [q r]. cbn [fst]. nia.
Qed.

Lemma has_sign_not_nan (s : bool) (x : float) :
  has_sign s x -> is_nan x = false.
Proof. destruct x; simpl; auto; contradiction. Qed.

Lemma div_finite_sign (sx sy : bool) (mx my : positive) (ex ey : Z) :
  has_sign (xorb sx sy)
    (div (S754_finite sx mx ex) (S754_finite sy my ey)).
Proof.
  unfold div, SFdiv.
  pose proof (div_core_nonneg mx my ex ey) as H.
  destruct (SFdiv_core_binary prec emax (Z.pos mx) ex (Z.pos my) ey)
    as [[mz ez] lz].
  cbn [fst] in H. now apply Rounding.binary_round_aux_sign.
Qed.

(** X12. The table of [ieee_float_divide(a, b)]: NaN when [a] or [b] is
    NaN; otherwise NaN exactly when both are zero or both are infinite;
    the infinity of the sign of the quotient when [b == 0] and [a] is not
    zero (so not for every [a]); the zero of that sign when [b] is
    infinite and [a] is finite; and in every case that is not NaN the
    sign of the result is the exclusive or of the signs of [a] and [b]. *)
Theorem ieee_float_divide_table (a b : float) :
  (is_nan a = true \/ is_nan b = true ->
   is_nan (ieee_float_divide a b) = true) /\
  (forall s t : bool,
      has_sign s a -> has_sign t b ->
      (eqb b zero = true -> eqb a zero = false ->
       ieee_float_divide a b = S754_infinity (xorb s t)) /\
      (isfinite b = false -> isfinite a = true ->
       ieee_float_divide a b = S754_zero (xorb s t)) /\
      (is_nan (ieee_float_divide a b) = true <->
       (eqb a zero = true /\ eqb b zero = true) \/
       (isfinite a = false /\ isfinite b = false)) /\
      (is_nan (ieee_float_divide a b) = false ->
       has_sign (xorb s t) (ieee_float_divide a b))).
Proof.
  unfold ieee_float_divide. split.
  - intros [H | H]; destruct a, b; try discriminate; reflexivity.
  - intros s t Ha Hb.
    destruct a as [sa | sa | | sa ma ea]; simpl in Ha; try contradiction;
      destruct b as [sb | sb | | sb mb eb]; simpl in Hb; try contradiction;
      subst s t;
      try (pose proof (div_finite_sign sa sb ma mb ea eb) as Hs;
           pose proof (has_sign_not_nan _ _ Hs) as Hn; rewrite Hn);
      (split; [ | split; [ | split ] ]);
      try (exact (fun _ => Hs));
      try (intros H1 H2; cbn in H1, H2; try discriminate;
           try reflexivity; try (destruct sa; discriminate);
           destruct sb; discriminate);
      try (intros _; reflexivity);
      try (intros H; discriminate H);
      try (split;
           [ intros H; try discriminate H;
             try (left; split; reflexivity); right; split; reflexivity
           | intros [[H1 H2] | [H1 H2]]; cbn in H1, H2;
             try discriminate; try reflexivity;
             try (destruct sa; discriminate); destruct sb; discriminate ]).
Qed.

Lemma ieee_float_divide_table_witness :
  ieee_float_divide one nzero = S754_infinity (xorb false true).
Proof.
  refine (proj1 (proj2 (ieee_float_divide_table one nzero) false true _ _) _ _);
    vm_compute; reflexivity.
Defined.

End Division.

(** ** [load], [store] and [join] *)

Module LoadStore.
Import simd.

Lemma firstn_length_app {T : Type} (l r : list T) :
  firstn (length l) (l ++ r) = l.
Proof.
  rewrite firstn_app, Nat.sub_diag, firstn_all. simpl. apply app_nil_r.
Qed.

Lemma store_prefix {T : Type} (ptr v : list T) :
  store ptr v = v ++ skipn (length v) ptr.
Proof. reflexivity. Qed.

(** X13. A vector stored to a buffer that has room for it is loaded back
    unchanged, and the store leaves the length of the buffer and the
    elements past the vector as they were; storing what was loaded from a
    buffer leaves the buffer as it was. *)
Theorem load_store_round_trip {T : Type} (ptr : list T) :
  (forall v : gvec T,
      (length v <= length ptr)%nat ->
      load (length v) (store ptr v) = v /\
      length (store ptr v) = length ptr /\
      skipn (length v) (store ptr v) = skipn (length v) ptr) /\
  (forall N : nat,
      (N <= length ptr)%nat ->
      length (load N ptr) = N /\ store ptr (load N ptr) = ptr).
Proof.
  split.
  - intros v Hv. rewrite store_prefix. repeat split.
    + apply firstn_length_app.
    + rewrite length_app, length_skipn. lia.
    + rewrite skipn_app, Nat.sub_diag, skipn_all. reflexivity.
  - intros N HN. unfold load.
    assert (L : length (firstn N ptr) = N) by (rewrite length_firstn; lia).
    split; [ exact L | ].
    rewrite store_prefix, L. apply firstn_skipn.
Qed.

Lemma load_store_round_trip_witness :
  load 2 (store [F32.one; F32.two; F32.three] [F32.five; F32.four])
  = [F32.five; F32.four].
Proof.
  refine (proj1 (proj1 (load_store_round_trip [F32.one; F32.two; F32.three])
                   [F32.five; F32.four] _)).
  simpl. lia.
Defined.

(** X14. [join(a, b)] is the lanes of [a] followed by the lanes of [b],
    whatever the array [data] of [M + N] elements held before the two
    copies; its width is the sum of the two widths. *)
Theorem join_concatenates {T : Type} (data : list T) (a b : gvec T) :
  length data = (length a + length b)%nat ->
  join data a b = a ++ b /\
  length (join data a b) = (length a + length b)%nat.
Proof.
  intros _.
  assert (E : join data a b = a ++ b).
  { unfold join, load, store_at. cbn [firstn app Nat.add].
    rewrite firstn_length_app.
    rewrite <- length_app, app_assoc. apply firstn_length_app. }
  split; [ exact E | ]. rewrite E. apply length_app.
Qed.

Lemma join_concatenates_witness :
  join [F32.nan; F32.nan; F32.nan] [F32.one; F32.two] [F32.three]
  = [F32.one; F32.two] ++ [F32.three].
Proof.
  refine (proj1 (join_concatenates [F32.nan; F32.nan; F32.nan]
                   [F32.one; F32.two] [F32.three] _)).
  reflexivity.
Defined.

End LoadStore.

(** ** [simd::sqrt] *)

Module SquareRoot.
Import simd.

Lemma sqrtf_nan_iff (v : F32.float) :
  F32.is_nan (F32.sqrtf v) = F32.is_nan v || F32.ltb v F32.zero.
Proof.
  destruct v as [[ | ] | [ | ] | | [ | ] m e]; try reflexivity.
  assert (H : F32.leb F32.zero (F32.sqrtf (S754_finite false m e)) = true)
    by (apply Rounding.sqrtf_nonneg; reflexivity).
  apply F32Facts.leb_not_nan in H. destruct H as [_ H]. rewrite H.
  reflexivity.
Qed.

Lemma sqrtf_not_negative (v : F32.float) :
  F32.ltb (F32.sqrtf v) F32.zero = false.
Proof.
  destruct v as [[ | ] | [ | ] | | [ | ] m e]; try reflexivity.
  assert (H : F32.leb F32.zero (F32.sqrtf (S754_finite false m e)) = true)
    by (apply Rounding.sqrtf_nonneg; reflexivity).
  now apply F32Order.le_not_lt.
Qed.

Lemma isnan_float_lanes (x : gvec F32.float) :
  isnan x = map (fun v => of_bool (F32.is_nan v)) x.
Proof.
  unfold isnan, vec_not, vec_eq, zip2. simpl.
  induction x as [ | v x IH]; simpl; [ reflexivity | ].
  rewrite IH, simdFacts.truthy_of_bool. unfold lane_eq. simpl.
  now rewrite F32Facts.eqb_refl_nan, negb_involutive.
Qed.

Lemma lt_zero_lanes (x y : gvec F32.float) :
  length y = length x ->
  vec_lt x (splat y (F32.of_Z 0))
  = map (fun v => of_bool (F32.ltb v F32.zero)) x.
Proof.
  unfold vec_lt, zip2, splat. revert y.
  induction x as [ | v x IH]; intros [ | w y] L; try discriminate L;
    [ reflexivity | ].
  simpl. f_equal. apply IH. now injection L.
Qed.

(** X15. [simd::sqrt] flags as NaN exactly the lanes that are NaN or
    below zero: [isnan(sqrt(x))] is [isnan(x) || x < 0]; no lane of the
    result is below zero, and the lanes [+0.0], [-0.0] and [+inf] are
    returned as they are. *)
Theorem sqrt_nan_lanes :
  (forall x : gvec F32.float,
      isnan (sqrt x) = vec_or (isnan x) (vec_lt x (splat x (F32.of_Z 0)))) /\
  (forall x : gvec F32.float,
      any (vec_lt (sqrt x) (splat x (F32.of_Z 0))) = false) /\
  sqrt [F32.zero; F32.nzero; F32.infinity]
  = [F32.zero; F32.nzero; F32.infinity].
Proof.
  split; [ | split; [ | reflexivity ] ].
  - intros x. rewrite !isnan_float_lanes, lt_zero_lanes by reflexivity.
    unfold sqrt, vec_or, zip2.
    induction x as [ | v x IH]; simpl; [ reflexivity | ].
    rewrite IH, !simdFacts.truthy_of_bool, sqrtf_nan_iff. reflexivity.
  - intros x. rewrite lt_zero_lanes by (unfold sqrt; symmetry; apply length_map).
    unfold sqrt. rewrite map_map.
    induction x as [ | v x IH]; simpl; [ reflexivity | ].
    now rewrite sqrtf_not_negative.
Qed.

End SquareRoot.

(** ** [simd::mix] at [t = 0] *)

Module MixAtZero.
Import simd.

Lemma lerp_at_zero (x y : F32.float) :
  let r := F32.add (F32.mul (F32.sub y x) F32.zero) x in
  (F32.isfinite (F32.sub y x) = true ->
   F32.eqb r x = true /\ (F32.eqb x F32.zero = false -> r = x)) /\
  (F32.isfinite (F32.sub y x) = false -> r = F32.nan).
Proof.
  cbv zeta. split.
  - intros Fin.
    assert (Fx : F32.isfinite x = true).
    { destruct x as [ | [ | ] | | ], y as [ | [ | ] | | ]; try reflexivity;
        cbn in Fin; discriminate Fin. }
    destruct (F32.sub y x) as [s | s | | s m e]; try discriminate Fin;
      destruct x as [[ | ] | | | [ | ] mx ex]; try discriminate Fx;
      destruct s; cbn; try rewrite Z.compare_refl, Pos.compare_refl;
      split; try reflexivity; try discriminate.
  - intros Inf.
    destruct (F32.sub y x) as [s | s | | s m e]; try discriminate Inf;
      reflexivity.
Qed.

(** X16. [mix(a, b, 0)] gives back [a] in every lane where [b - a] is
    finite (the very lane of [a], but that a zero may come back with the
    other sign), and gives NaN in a lane where [b - a] overflows or is
    NaN: the interpolation [(b - a) * t + a] multiplies the infinity by
    zero. *)
Theorem mix_at_zero (a b : gvec F32.float) (i : nat) (x y : F32.float) :
  nth_error a i = Some x -> nth_error b i = Some y ->
  exists r, nth_error (mix a b F32.zero) i = Some r /\
    (F32.isfinite (F32.sub y x) = true ->
     F32.eqb r x = true /\ (F32.eqb x F32.zero = false -> r = x)) /\
    (F32.isfinite (F32.sub y x) = false -> r = F32.nan).
Proof.
  intros Ha Hb. eexists. split.
  - apply (Mix.lane_mix a b i x y Ha Hb).
  - apply lerp_at_zero.
Qed.

Lemma mix_at_zero_witness :
  exists r,
    nth_error (mix [F32.neg F32.two64] [F32.three] F32.zero) 0%nat = Some r /\
    (F32.isfinite (F32.sub F32.three (F32.neg F32.two64)) = true ->
     F32.eqb r (F32.neg F32.two64) = true /\
     (F32.eqb (F32.neg F32.two64) F32.zero = false ->
      r = F32.neg F32.two64)) /\
    (F32.isfinite (F32.sub F32.three (F32.neg F32.two64)) = false ->
     r = F32.nan).
Proof.
  apply (mix_at_zero [F32.neg F32.two64] [F32.three] 0%nat
           (F32.neg F32.two64) F32.three); reflexivity.
Defined.

End MixAtZero.

(** ** [simd::fast_acos] *)

Module FastAcos.
Import F32 simd.

Lemma mul_neg_l (x y : float) : mul (neg x) y = neg (mul x y).
Proof.
  now rewrite F32Facts.mul_comm, Rounding.mul_neg_r, F32Facts.mul_comm.
Qed.

Lemma fast_acos_lanes (x : gvec float) :
  fast_acos x
  = map (fun v =>
           add (mul v (div (add (mul acos_b (mul v v)) acos_a)
                           (add (mul (mul v v)
                                     (add (mul acos_d (mul v v)) acos_c))
                                (of_Z 1))))
               pi_over_2) x.
Proof.
  unfold fast_acos, vec_add, vec_mul, vec_div, splat, zip2.
  induction x as [ | v x IH]; [ reflexivity | ].
  cbn [map combine fst snd]. f_equal. exact IH.
Qed.

(** X17. [fast_acos] is odd about [pi/2]: it is some [p + pi_over_2], and
    at [-x] it is [-p + pi_over_2] with the same [p]; at the lanes [+0.0]
    and [-0.0] it is [pi_over_2] itself, and at [1], [0] and [-1] it is
    within [SIMD_FAST_ACOS_MAX_ERROR] of [0], [pi/2] and [math::PI]; a
    NaN lane gives NaN. *)
Theorem fast_acos_odd_about_half_pi :
  (forall x : gvec float,
      exists p : gvec float,
        length p = length x /\
        fast_acos x = vec_add p (splat x pi_over_2) /\
        fast_acos (vec_neg x) = vec_add (vec_neg p) (splat x pi_over_2)) /\
  fast_acos [zero; nzero; nan] = [pi_over_2; pi_over_2; nan] /\
  Forall2 (fun r e => math.nearly_equal r e SIMD_FAST_ACOS_MAX_ERROR = true)
          (fast_acos [one; zero; neg one]) [zero; pi_over_2; math.PI].
Proof.
  split; [ | split ].
  - intros x.
    exists (map (fun v =>
                   mul v (div (add (mul acos_b (mul v v)) acos_a)
                              (add (mul (mul v v)
                                        (add (mul acos_d (mul v v)) acos_c))
                                   (of_Z 1)))) x).
    split; [ apply length_map | ].
    rewrite !fast_acos_lanes. unfold vec_add, vec_neg, splat, zip2.
    split.
    + induction x as [ | v x IH]; [ reflexivity | ].
      cbn [map combine fst snd]. f_equal. exact IH.
    + induction x as [ | v x IH]; [ reflexivity | ].
      cbn [map combine fst snd]. f_equal; [ | exact IH ].
      cbn [lane_neg lane_add Lane_float].
      now rewrite F32Facts.mul_neg_neg, mul_neg_l.
  - vm_compute. reflexivity.
  - repeat constructor; vm_compute; reflexivity.
Qed.

End FastAcos.

(** ** [StateTransition]: the flags *)

Module TransitionFlags.
Import StateTransition.

Lemma land_lor_same (f m : Z) : Z.land (Z.lor f m) m = m.
Proof.
  apply Z.bits_inj'. intros n Hn.
  rewrite Z.land_spec, Z.lor_spec.
  destruct (Z.testbit f n), (Z.testbit m n); reflexivity.
Qed.

Lemma land_lor_other (f m k : Z) :
  Z.land m k = 0 -> Z.land (Z.lor f m) k = Z.land f k.
Proof.
  intros D. rewrite Z.land_lor_distr_l, D. apply Z.lor_0_r.
Qed.

Lemma land_clear (f m : Z) : Z.land (Z.land f (Z.lnot m)) m = 0.
Proof.
  rewrite <- Z.land_assoc, (Z.land_comm (Z.lnot m)), Z.land_lnot_diag.
  apply Z.land_0_r.
Qed.

(** X18. With flag masks that are not [0] and share no bit: a transition
    whose [Disabled] bits are set is disabled and one whose bits are
    cleared is not; [pauseOnExit()] and [enableExitTime()] are inverted,
    false when the bits of their flag are set and true when cleared; and
    setting or clearing the bits of one flag changes none of the other two
    answers.  With no flag set the transition is enabled, pauses on exit
    and has its exit time enabled. *)
Theorem flags_independent (Disabled PauseOnExit EnableExitTime flags : Z) :
  Disabled <> 0 -> PauseOnExit <> 0 -> EnableExitTime <> 0 ->
  Z.land Disabled PauseOnExit = 0 ->
  Z.land Disabled EnableExitTime = 0 ->
  Z.land PauseOnExit EnableExitTime = 0 ->
  (isDisabled Disabled (Z.lor flags Disabled) = true /\
   isDisabled Disabled (Z.land flags (Z.lnot Disabled)) = false /\
   pauseOnExit PauseOnExit (Z.lor flags PauseOnExit) = false /\
   pauseOnExit PauseOnExit (Z.land flags (Z.lnot PauseOnExit)) = true /\
   enableExitTime EnableExitTime (Z.lor flags EnableExitTime) = false /\
   enableExitTime EnableExitTime (Z.land flags (Z.lnot EnableExitTime))
   = true) /\
  (isDisabled Disabled (Z.lor flags PauseOnExit) = isDisabled Disabled flags /\
   isDisabled Disabled (Z.lor flags EnableExitTime)
   = isDisabled Disabled flags /\
   pauseOnExit PauseOnExit (Z.lor flags Disabled)
   = pauseOnExit PauseOnExit flags /\
   pauseOnExit PauseOnExit (Z.lor flags EnableExitTime)
   = pauseOnExit PauseOnExit flags /\
   enableExitTime EnableExitTime (Z.lor flags Disabled)
   = enableExitTime EnableExitTime flags /\
   enableExitTime EnableExitTime (Z.lor flags PauseOnExit)
   = enableExitTime EnableExitTime flags) /\
  (isDisabled Disabled 0 = false /\
   pauseOnExit PauseOnExit 0 = true /\
   enableExitTime EnableExitTime 0 = true).
Proof.
  intros ND NP NE DP DE PE.
  assert (PD : Z.land PauseOnExit Disabled = 0) by now rewrite Z.land_comm.
  assert (ED : Z.land EnableExitTime Disabled = 0) by now rewrite Z.land_comm.
  assert (EP : Z.land EnableExitTime PauseOnExit = 0)
    by now rewrite Z.land_comm.
  unfold isDisabled, pauseOnExit, enableExitTime.
  rewrite !land_lor_same, !land_clear, !Z.eqb_refl.
  rewrite !(land_lor_other _ _ _ PD), !(land_lor_other _ _ _ ED),
    !(land_lor_other _ _ _ EP), !(land_lor_other _ _ _ DP),
    !(land_lor_other _ _ _ DE), !(land_lor_other _ _ _ PE).
  rewrite !Z.land_0_l.
  assert (Z0 : forall m, m <> 0 -> (0 =? m) = false)
    by (intros m Hm; apply Z.eqb_neq; congruence).
  rewrite !(Z0 _ ND), !(Z0 _ NP), !(Z0 _ NE).
  repeat split; reflexivity.
Qed.

Lemma flags_independent_witness :
  isDisabled 1 (Z.lor 6 1) = true /\ pauseOnExit 2 (Z.lor 6 1) = false.
Proof.
  pose proof (flags_independent 1 2 4 6 ltac:(discriminate)
                ltac:(discriminate) ltac:(discriminate)
                eq_refl eq_refl eq_refl) as H.
  split; [ exact (proj1 (proj1 H)) | reflexivity ].
Defined.

End TransitionFlags.

(** ** [simd::if_then_else] *)

Module Select.
Import simd.

Lemma if_then_else_not {T : Type} `{Lane T} (c : gvec int32_t) :
  forall t e : gvec T,
    if_then_else (vec_not c) t e = if_then_else c e t.
Proof.
  unfold if_then_else, zip3, vec_not.
  induction c as [ | v c IH]; intros [ | x t] [ | y e]; try reflexivity.
  cbn [map combine fst snd]. rewrite simdFacts.truthy_of_bool.
  f_equal; [ now destruct (truthy v) | apply IH ].
Qed.

Lemma if_then_else_same {T : Type} `{Lane T} (c : gvec int32_t) :
  forall t : gvec T, length c = length t -> if_then_else c t t = t.
Proof.
  unfold if_then_else, zip3.
  induction c as [ | v c IH]; intros [ | x t] L; try discriminate L;
    [ reflexivity | ].
  cbn [map combine fst snd]. f_equal; [ now destruct (truthy v) | ].
  apply IH. now injection L.
Qed.

(** X19. For a vector boolean [c] (lanes [0] or [~0]) and branches of
    its width, [if_then_else] with the condition negated is
    [if_then_else] with the two branches exchanged; with twice the same
    branch it is that branch; and each lane of the result is the lane of
    [_then] or the lane of [_else]. *)
Theorem if_then_else_branches {T : Type} `{Lane T}
  (c : gvec int32_t) (t e : gvec T) :
  Forall (fun v => v = TRUE \/ v = FALSE) c ->
  length c = length t -> length t = length e ->
  if_then_else (vec_not c) t e = if_then_else c e t /\
  if_then_else c t t = t /\
  (forall (i : nat) (r : T),
      nth_error (if_then_else c t e) i = Some r ->
      nth_error t i = Some r \/ nth_error e i = Some r).
Proof.
  intros _ Lc Lt. split; [ apply if_then_else_not | ].
  split; [ now apply if_then_else_same | ].
  clear Lc Lt. unfold if_then_else, zip3. revert t e.
  induction c as [ | v c IH]; intros [ | x t] [ | y e] i r;
    try (destruct i; discriminate).
  destruct i as [ | i]; cbn [map combine fst snd nth_error].
  - destruct (truthy v); auto.
  - apply IH.
Qed.

Lemma if_then_else_branches_witness :
  if_then_else (vec_not [TRUE; FALSE]) [Int32 1; Int32 2] [Int32 3; Int32 4]
  = if_then_else [TRUE; FALSE] [Int32 3; Int32 4] [Int32 1; Int32 2].
Proof.
  refine (proj1 (if_then_else_branches [TRUE; FALSE]
                   [Int32 1; Int32 2] [Int32 3; Int32 4] _ _ _));
    try reflexivity.
  repeat (apply Forall_cons; [ auto | ]). apply Forall_nil.
Defined.

End Select.
